(** * go-mysql-server: star expansion, variable expressions, replication
      commands, the view registry and the SET node

    A shallow embedding of the analyzer rule [expandStars]
    (sql/analyzer/expand_stars.go), of the [SystemVar] and [UserVar]
    expressions (package expression), of the replication-control plan nodes
    (sql/plan/replication_commands.go), and of the two components whose
    implementation is only exercised by tests in the sources (the view
    registry and the SET node), together with the properties the
    specification states about them. *)

From Stdlib Require Import Ascii String List Bool Arith Lia Sorted.
From stdpp Require Import base option list strings gmap.

Local Open Scope string_scope.
Local Open Scope list_scope.

(** ** Package strings *)

Module gostrings.

(** [strings.ToLower] maps every letter to its lower case by the Unicode
    tables of the Go standard library, which are not among the sources:
    the code that calls it takes it as a parameter, [ToLower], and every
    property below holds for whatever function that is.  [asciiToLower]
    is what it computes on strings of ASCII bytes (the letters [A]..[Z]
    become [a]..[z], every other ASCII byte is kept); it serves to run
    the definitions on sample inputs. *)
Definition asciiLowerByte (c : ascii) : ascii :=
  let n := nat_of_ascii c in
  if Nat.leb 65 n && Nat.leb n 90 then ascii_of_nat (n + 32) else c.

Fixpoint asciiToLower (s : string) : string :=
  match s with
  | EmptyString => EmptyString
  | String c rest => String (asciiLowerByte c) (asciiToLower rest)
  end.

(** [strings.TrimLeft s "@"]: drops every leading [@]. *)
Fixpoint TrimLeftAt (s : string) : string :=
  match s with
  | String "@"%char rest => TrimLeftAt rest
  | _ => s
  end.

End gostrings.

(** ** Package sql: types, values, columns, errors *)

Module sql.

(** The [sql.Type] values the sources name, and a case for the others. *)
Inductive SqlType : Type :=
  | Null
  | Int64
  | LongText
  | OtherType (name : string).

(** Go's [interface{}] values that flow through the modelled code. *)
Inductive Value : Type :=
  | VNil
  | VInt (n : Z)
  | VString (s : string)
  | VBool (b : bool).

Record Column : Type := mkColumn {
  Name : string;
  Typ : SqlType;
  Source : string;
  Nullable : bool
}.

Definition Schema : Type := list Column.

(** [sql.CollationID], a numeric identifier. *)
Definition CollationID : Type := nat.

Inductive SystemVariableScope : Type :=
  | SystemVariableScope_Global
  | SystemVariableScope_Session
  | SystemVariableScope_Other (tag : nat).

(** Errors, by kind.  [Errorf] stands for an error built by [fmt.Errorf]
    (or any other error value identified by its message). *)
Inductive Error : Type :=
  | ErrTableNotFound (table : string)
  | ErrUnknownSystemVariable (name : string)
  | ErrUnknownScope (scope : SystemVariableScope) (name : string)
  | ErrExistingView (db name : string)
  | ErrNonExistingView (db name : string)
  | Errorf (msg : string).

(** A Go result [(T, error)] of a function that returns either a value or
    an error. *)
Inductive result (A : Type) : Type :=
  | Ok (a : A)
  | Err (e : Error).
Arguments Ok {A} a.
Arguments Err {A} e.

Definition bind {A B : Type} (r : result A) (k : A -> result B) : result B :=
  match r with
  | Ok a => k a
  | Err e => Err e
  end.

End sql.

Export sql.

(** ** Package expression *)

Module expression.

(** [SystemVar] (part_000, lines 27-32). [Collation] is a [sql.CollationID]. *)
Record SystemVar : Type := mkSystemVar {
  sv_Name : string;
  sv_Collation : CollationID;
  sv_Scope : SystemVariableScope;
  sv_SpecifiedScope : string
}.

(** [UserVar] (part_000, lines 126-129). *)
Record UserVar : Type := mkUserVar {
  uv_Name : string;
  uv_exprType : SqlType
}.

(** The expression variants the modelled code builds or inspects. *)
Inductive Expression : Type :=
  | Star (Table : string)
  | GetField (fieldIndex : nat) (fieldType : SqlType) (table name : string)
      (nullable : bool)
  | UnresolvedColumn (name : string)
  | Literal (value : Value) (fieldType : SqlType)
  | DefaultColumn (name : string)
  | SetField (Left Right : Expression)
  | SystemVarExpr (v : SystemVar)
  | UserVarExpr (v : UserVar).

(** [expression.NewGetFieldWithTable(index, type, table, name, nullable)]. *)
Definition NewGetFieldWithTable (index : nat) (fieldType : SqlType)
    (table name : string) (nullable : bool) : Expression :=
  GetField index fieldType table name nullable.

Definition NewSystemVar (name : string) (scope : SystemVariableScope)
    (specifiedScope : string) : SystemVar :=
  mkSystemVar name 0 scope specifiedScope.

Definition NewUserVar (name : string) : UserVar := mkUserVar name Null.

Definition NewUserVarWithType (name : string) (t : SqlType) : UserVar :=
  mkUserVar name t.

Definition SystemVar_Resolved (v : SystemVar) : bool := true.

Definition UserVar_Resolved (v : UserVar) : bool := true.

(** Modelled from the spec: [Resolved] of the variants whose source is not
    among the sources ("true for literals and fully bound
    references, false for unqualified/unknown names"; a wildcard is what
    star expansion has to replace).  The two variable cases are the code. *)
Fixpoint Resolved (e : Expression) : bool :=
  match e with
  | Star _ => false
  | GetField _ _ _ _ _ => true
  | UnresolvedColumn _ => false
  | Literal _ _ => true
  | DefaultColumn _ => false
  | SetField l r => Resolved l && Resolved r
  | SystemVarExpr v => SystemVar_Resolved v
  | UserVarExpr v => UserVar_Resolved v
  end.

(** *** Evaluation of variable expressions *)

(** A system variable definition as [GetGlobal] returns it; only its type
    is read by the modelled code. *)
Record SystemVariable : Type := mkSystemVariable {
  sysvar_Name : string;
  sysvar_Type : SqlType
}.

(** The process-wide registry [sql.SystemVariables]: [GetGlobal] returns
    the definition and the value, or nothing when the name is unknown. *)
Record SystemVariableRegistry : Type := mkSystemVariableRegistry {
  GetGlobal : string -> option (SystemVariable * Value)
}.

(** The part of [*sql.Context] the expressions use: the session's system
    variables and its user variables, behind the session interface. *)
Record Context : Type := mkContext {
  GetSessionVariable : string -> result Value;
  GetUserVariable : string -> result (SqlType * Value)
}.

(** The store accesses an evaluation performs, in order. *)
Inductive StoreRead : Type :=
  | ReadSessionVariable (name : string)
  | ReadGlobal (name : string)
  | ReadUserVariable (name : string).

Section Eval.

(** [ToLower] is [strings.ToLower].  The collation tables of package sql
    are not among the sources: [CharacterSetName c] is
    [c.CharacterSet().String()] and [CollationName c] is [c.String()]. *)
Variable ToLower : string -> string.
Variable CharacterSetName : CollationID -> string.
Variable CollationName : CollationID -> string.
Variable SystemVariables : SystemVariableRegistry.

(** [SystemVar.Eval] (part_000, lines 50-80): the value or error returned,
    and the store accesses made on the way. *)
Definition SystemVar_Eval (v : SystemVar) (ctx : Context)
    : result Value * list StoreRead :=
  match sv_Scope v with
  | SystemVariableScope_Session =>
      let lower := ToLower (sv_Name v) in
      if String.eqb lower "character_set_database" then
        (Ok (VString (CharacterSetName (sv_Collation v))), [])
      else if String.eqb lower "collation_database" then
        (Ok (VString (CollationName (sv_Collation v))), [])
      else
        (match GetSessionVariable ctx (sv_Name v) with
         | Err err => Err err
         | Ok val => Ok val
         end, [ReadSessionVariable (sv_Name v)])
  | SystemVariableScope_Global =>
      (match GetGlobal SystemVariables (sv_Name v) with
       | None => Err (ErrUnknownSystemVariable (sv_Name v))
       | Some (_, val) => Ok val
       end, [ReadGlobal (sv_Name v)])
  | scope => (Err (ErrUnknownScope scope (sv_Name v)), [])
  end.

(** [SystemVar.Type] (part_000, lines 83-88). *)
Definition SystemVar_Type (v : SystemVar) : SqlType :=
  match GetGlobal SystemVariables (sv_Name v) with
  | Some (sysVar, _) => sysvar_Type sysVar
  | None => Null
  end.

(** [UserVar.Eval] (part_000, lines 151-158). *)
Definition UserVar_Eval (v : UserVar) (ctx : Context)
    : result Value * list StoreRead :=
  (match GetUserVariable ctx (uv_Name v) with
   | Err err => Err err
   | Ok (_, val) => Ok val
   end, [ReadUserVariable (uv_Name v)]).

(** [UserVar.Type] (part_000, lines 161-163). *)
Definition UserVar_Type (v : UserVar) : SqlType := uv_exprType v.

End Eval.

(** Sample collation tables, a registry without variables and a session
    whose stores know no name, to evaluate expressions on. *)
Definition sampleCharacterSetName (c : CollationID) : string :=
  if Nat.eqb c 63 then "binary" else "utf8mb4".

Definition sampleCollationName (c : CollationID) : string :=
  if Nat.eqb c 63 then "binary"
  else if Nat.eqb c 45 then "utf8mb4_general_ci" else "utf8mb4_0900_ai_ci".

Definition emptyRegistry : SystemVariableRegistry :=
  mkSystemVariableRegistry (fun _ => None).

Definition emptyContext : Context :=
  mkContext (fun name => Err (ErrUnknownSystemVariable name))
            (fun name => Err (Errorf "unknown user variable")).

End expression.

Export expression.

(** ** Package plan: the plan tree *)

Module plan.

(** The plan operators the rule inspects ([Project], [GroupBy]), the two
    kinds of table leaves, and [OtherNode] for every other operator: a tag,
    its expressions and its children. *)
#[warnings="-register-all"] Inductive Node : Type :=
  | ResolvedTable (name : string) (schema : Schema)
  | UnresolvedTable (name : string)
  | Project (Projections : list Expression) (Child : Node)
  | GroupBy (SelectedExprs GroupByExprs : list Expression) (Child : Node)
  | OtherNode (tag : string) (exprs : list Expression) (children : list Node).

Definition NewProject (expressions : list Expression) (child : Node) : Node :=
  Project expressions child.

Definition NewGroupBy (selectedExprs groupByExprs : list Expression)
    (child : Node) : Node :=
  GroupBy selectedExprs groupByExprs child.

(** Modelled from the spec: [Node.Resolved], whose implementations are
    not among the sources ("a Node is resolved iff all its expressions and
    children are resolved"); a table leaf is resolved iff it is bound. *)
Fixpoint Resolved (n : Node) : bool :=
  match n with
  | ResolvedTable _ _ => true
  | UnresolvedTable _ => false
  | Project ps c => Resolved c && forallb expression.Resolved ps
  | GroupBy ss gs c =>
      Resolved c && forallb expression.Resolved ss
      && forallb expression.Resolved gs
  | OtherNode _ es cs => forallb expression.Resolved es && forallb Resolved cs
  end.

(** Modelled from the spec: [plan.TransformUp], not among the sources
    ("recursively transforms every child first, then applies fn to the
    rebuilt current node"; an error of [fn] aborts the transformation and
    is returned unchanged).  The rebuilt node has as many children as the
    original, so the arity check of [WithChildren] never fails here. *)
Fixpoint TransformUp (node : Node) (f : Node -> result Node) : result Node :=
  match node with
  | ResolvedTable _ _ | UnresolvedTable _ => f node
  | Project ps c =>
      sql.bind (TransformUp c f) (fun c' => f (Project ps c'))
  | GroupBy ss gs c =>
      sql.bind (TransformUp c f) (fun c' => f (GroupBy ss gs c'))
  | OtherNode tag es cs =>
      let newChildren :=
        (fix children (cs : list Node) : result (list Node) :=
           match cs with
           | [] => Ok []
           | c :: rest =>
               sql.bind (TransformUp c f) (fun c' =>
               sql.bind (children rest) (fun rest' => Ok (c' :: rest')))
           end) cs in
      sql.bind newChildren (fun cs' => f (OtherNode tag es cs'))
  end.

End plan.

(** ** Package analyzer: star expansion *)

Module analyzer.

Import plan.

Section ExpandStars.

(** [ToLower] is [strings.ToLower].  The alias map and the scope belong to
    code that is not among the sources ([getTableAliases], which may
    fail); so does [Node.Schema], defined on resolved nodes.
    [expandStarsForExpressions] receives the alias map and never reads
    it. *)
Variable ToLower : string -> string.
Context {TableAliases Scope : Type}.
Variable getTableAliases : Node -> Scope -> result TableAliases.
Variable Node_Schema : Node -> Schema.

(** The test of line 63: [star.Table == "" || lowerTable == lowerSource]. *)
Definition starSelects (Table : string) (col : Column) : bool :=
  let lowerSource := ToLower (Source col) in
  let lowerTable := ToLower Table in
  String.eqb Table "" || String.eqb lowerTable lowerSource.

(** The inner loop, lines 60-68: [i] is the index of the head of the part of
    the schema still to visit, [exprs] the slice built so far. *)
Fixpoint starLoop (Table : string) (i : nat) (schema : Schema)
    (exprs : list Expression) : list Expression :=
  match schema with
  | [] => exprs
  | col :: rest =>
      let exprs :=
        if starSelects Table col
        then exprs ++ [NewGetFieldWithTable i (Typ col) (Source col) (Name col)
                         (Nullable col)]
        else exprs in
      starLoop Table (S i) rest exprs
  end.

(** The outer loop, lines 57-78, with the slice [expressions] built so far. *)
Fixpoint expandLoop (exprs : list Expression) (schema : Schema)
    (expressions : list Expression) : result (list Expression) :=
  match exprs with
  | [] => Ok expressions
  | e :: rest =>
      match e with
      | Star Table =>
          let exprs := starLoop Table 0 schema [] in
          if Nat.eqb (length exprs) 0 && negb (String.eqb Table "")
          then Err (ErrTableNotFound Table)
          else expandLoop rest schema (expressions ++ exprs)
      | _ => expandLoop rest schema (expressions ++ [e])
      end
  end.

(** [expandStarsForExpressions] (lines 55-82); the logging call of line 80
    has no effect on the result. *)
Definition expandStarsForExpressions (exprs : list Expression)
    (schema : Schema) (tableAliases : TableAliases)
    : result (list Expression) :=
  expandLoop exprs schema [].

(** The function handed to [plan.TransformUp] (lines 21-52). *)
Definition expandStarsNode (tableAliases : TableAliases) (n : Node)
    : result Node :=
  if Resolved n then Ok n
  else
    match n with
    | Project Projections Child =>
        if negb (Resolved Child) then Ok n
        else
          sql.bind
            (expandStarsForExpressions Projections (Node_Schema Child)
               tableAliases)
            (fun expressions => Ok (NewProject expressions Child))
    | GroupBy SelectedExprs GroupByExprs Child =>
        if negb (Resolved Child) then Ok n
        else
          sql.bind
            (expandStarsForExpressions SelectedExprs (Node_Schema Child)
               tableAliases)
            (fun aggregate => Ok (NewGroupBy aggregate GroupByExprs Child))
    | _ => Ok n
    end.

(** [expandStars] (lines 12-53); the tracing span is transparent. *)
Definition expandStars (n : Node) (scope : Scope) : result Node :=
  sql.bind (getTableAliases n scope) (fun tableAliases =>
    TransformUp n (expandStarsNode tableAliases)).

End ExpandStars.

(** *** The expansion as the specification words it *)

(** The columns of [schema] paired with their positions. *)
Definition positions (schema : Schema) : list (nat * Column) :=
  combine (seq 0 (length schema)) schema.

Section Specification.

Variable ToLower : string -> string.

(** A wildcard without qualifier selects every column; a qualified one the
    columns whose source table equals the qualifier up to letter case. *)
Definition qualifierMatches (Table : string) (col : Column) : Prop :=
  Table = "" \/ ToLower Table = ToLower (Source col).

(** The qualified reference to the column [col] found at position [i]. *)
Definition fieldRef (ic : nat * Column) : Expression :=
  GetField (fst ic) (Typ (snd ic)) (Source (snd ic)) (Name (snd ic))
    (Nullable (snd ic)).

(** One reference per selected column, in schema order. *)
Definition starColumns (Table : string) (schema : Schema) : list Expression :=
  List.map fieldRef
    (List.filter (fun ic => starSelects ToLower Table (snd ic))
       (positions schema)).

(** What one entry of the projection list becomes. *)
Definition expandOne (schema : Schema) (e : Expression) : list Expression :=
  match e with
  | Star Table => starColumns Table schema
  | _ => [e]
  end.

(** A qualifier that is present and that no column's source table equals,
    up to letter case. *)
Definition unmatchedQualifier (Table : string) (schema : Schema) : Prop :=
  Table <> ""
  /\ forall col, In col schema ->
       ToLower Table <> ToLower (Source col).

(** A wildcard that names a table no column comes from. *)
Definition missingTable (schema : Schema) (e : Expression) : option string :=
  match e with
  | Star Table =>
      if negb (String.eqb Table "")
         && forallb (fun col => negb (starSelects ToLower Table col)) schema
      then Some Table else None
  | _ => None
  end.

(** The qualifier of the first such wildcard of a projection list. *)
Fixpoint firstMissingTable (schema : Schema) (exprs : list Expression)
    : option string :=
  match exprs with
  | [] => None
  | e :: rest =>
      match missingTable schema e with
      | Some Table => Some Table
      | None => firstMissingTable schema rest
      end
  end.

End Specification.

(** The columns [a] and [b] of table [t], and a schema mixing two tables. *)
Definition schema_t_ab : Schema :=
  [mkColumn "a" Int64 "t" false; mkColumn "b" LongText "t" true].

Definition schema_u_a_t_b : Schema :=
  [mkColumn "a" Int64 "u" false; mkColumn "b" LongText "t" true].

(** A schema function and an alias collection to run the rule on sample
    trees: a bound table has the schema it carries, and no alias is
    collected. *)
Definition sampleSchema (n : plan.Node) : Schema :=
  match n with
  | ResolvedTable _ schema => schema
  | _ => []
  end.

Definition noAliases (n : plan.Node) (scope : unit) : result unit := Ok tt.

End analyzer.

(** ** Package binlogreplication: the controller interface *)

Module binlogreplication.

Record ReplicationOption : Type := mkReplicationOption {
  opt_Name : string;
  opt_Value : Value
}.

(** The methods of [BinlogReplicaController] the plan nodes call.  The
    controller is supplied by the integrator and keeps its own state, of
    type [S]: every method returns its error (if any) and the state after
    the call. *)
Record BinlogReplicaController (S : Type) : Type := mkController {
  SetReplicationSourceOptions :
    Context -> list ReplicationOption -> S -> option Error * S;
  SetReplicationFilterOptions :
    Context -> list ReplicationOption -> S -> option Error * S;
  StartReplica : Context -> S -> option Error * S;
  StopReplica : Context -> S -> option Error * S;
  ResetReplica : Context -> bool -> S -> option Error * S
}.
Arguments SetReplicationSourceOptions {S} _ _ _ _.
Arguments SetReplicationFilterOptions {S} _ _ _ _.
Arguments StartReplica {S} _ _ _.
Arguments StopReplica {S} _ _ _.
Arguments ResetReplica {S} _ _ _ _.

End binlogreplication.

(** ** Package plan: replication commands *)

Module replication.

Import binlogreplication.

Section Commands.

Context {S : Type}.

(** An interface value: [None] is Go's [nil]. *)
Abbreviation Controller := (option (BinlogReplicaController S)).

(** The five command nodes (replication_commands.go), each with its
    [replicaController] field first. *)
Inductive Command : Type :=
  | ChangeReplicationSource (replicaController : Controller)
      (Options : list ReplicationOption)
  | ChangeReplicationFilter (replicaController : Controller)
      (Options : list ReplicationOption)
  | StartReplica (replicaController : Controller)
  | StopReplica (replicaController : Controller)
  | ResetReplica (replicaController : Controller) (All : bool).

Definition NewChangeReplicationSource (options : list ReplicationOption)
    : Command := ChangeReplicationSource None options.

Definition NewChangeReplicationFilter (options : list ReplicationOption)
    : Command := ChangeReplicationFilter None options.

Definition NewStartReplica : Command := StartReplica None.

Definition NewStopReplica : Command := StopReplica None.

Definition NewResetReplica (all : bool) : Command := ResetReplica None all.

Definition replicaController (n : Command) : Controller :=
  match n with
  | ChangeReplicationSource c _ | ChangeReplicationFilter c _
  | StartReplica c | StopReplica c | ResetReplica c _ => c
  end.

(** [WithBinlogReplicaController]: a copy of the node with the controller
    field replaced. *)
Definition WithBinlogReplicaController (n : Command) (controller : Controller)
    : Command :=
  match n with
  | ChangeReplicationSource _ o => ChangeReplicationSource controller o
  | ChangeReplicationFilter _ o => ChangeReplicationFilter controller o
  | StartReplica _ => StartReplica controller
  | StopReplica _ => StopReplica controller
  | ResetReplica _ a => ResetReplica controller a
  end.

Definition Resolved (n : Command) : bool := true.

(** A row iterator, as the rows it yields; [sql.RowsToRowIter()] yields
    none. *)
Definition RowIterator : Type := list (list Value).

Definition RowsToRowIter : RowIterator := [].

Definition noController : Error :=
  Errorf "no replication controller available".

(** The operation of the controller [c] that the node [n] stands for. *)
Definition invoke (c : BinlogReplicaController S) (n : Command)
    (ctx : Context) (s : S) : option Error * S :=
  match n with
  | ChangeReplicationSource _ o =>
      binlogreplication.SetReplicationSourceOptions c ctx o s
  | ChangeReplicationFilter _ o =>
      binlogreplication.SetReplicationFilterOptions c ctx o s
  | StartReplica _ => binlogreplication.StartReplica c ctx s
  | StopReplica _ => binlogreplication.StopReplica c ctx s
  | ResetReplica _ a => binlogreplication.ResetReplica c ctx a s
  end.

(** [RowIter] of the five nodes (lines 82-89, 155-162, 214-221, 273-280,
    340-347): the pair [(sql.RowIter, error)] returned, [None] for [nil],
    and the controller's state afterwards. *)
Definition RowIter (n : Command) (ctx : Context) (s : S)
    : (option RowIterator * option Error) * S :=
  match n with
  | ChangeReplicationSource replicaController Options =>
      match replicaController with
      | None => ((None, Some noController), s)
      | Some c =>
          let '(err, s') :=
            binlogreplication.SetReplicationSourceOptions c ctx Options s in
          ((Some RowsToRowIter, err), s')
      end
  | ChangeReplicationFilter replicaController Options =>
      match replicaController with
      | None => ((None, Some noController), s)
      | Some c =>
          let '(err, s') :=
            binlogreplication.SetReplicationFilterOptions c ctx Options s in
          ((Some RowsToRowIter, err), s')
      end
  | StartReplica replicaController =>
      match replicaController with
      | None => ((None, Some noController), s)
      | Some c =>
          let '(err, s') := binlogreplication.StartReplica c ctx s in
          ((Some RowsToRowIter, err), s')
      end
  | StopReplica replicaController =>
      match replicaController with
      | None => ((None, Some noController), s)
      | Some c =>
          let '(err, s') := binlogreplication.StopReplica c ctx s in
          ((Some RowsToRowIter, err), s')
      end
  | ResetReplica replicaController All =>
      match replicaController with
      | None => ((None, Some noController), s)
      | Some c =>
          let '(err, s') := binlogreplication.ResetReplica c ctx All s in
          ((Some RowsToRowIter, err), s')
      end
  end.

End Commands.

Arguments Command S : clear implicits.

(** A sample controller whose state is the log of the calls it received,
    latest first; none of its operations fails. *)
Definition loggingController : BinlogReplicaController (list string) :=
  mkController (list string)
    (fun _ _ log => (None, "SetReplicationSourceOptions" :: log))
    (fun _ _ log => (None, "SetReplicationFilterOptions" :: log))
    (fun _ log => (None, "StartReplica" :: log))
    (fun _ log => (None, "StopReplica" :: log))
    (fun _ _ log => (None, "ResetReplica" :: log)).

End replication.

(** ** Package sql: the view registry *)

Module viewregistry.

(** A view: its name, its defining plan ([None] for Go's [nil]) and its
    text, as [NewView(name, definition, textDefinition)] takes them. *)
Record View : Type := NewView {
  view_Name : string;
  view_Definition : option plan.Node;
  view_TextDefinition : string
}.

(** [ViewKey]: the database name and the view name. *)
Record ViewKey : Type := mkViewKey {
  dbName : string;
  viewName : string
}.

Definition keyOf (k : ViewKey) : string * string := (dbName k, viewName k).

(** The registry maps (database, view name) to the view. *)
Abbreviation ViewRegistry := (gmap (string * string) View).

Definition NewViewRegistry : ViewRegistry := ∅.

(** Modelled from the spec: [ViewRegistry.Exists], whose implementation is
    not among the sources ("Exists(db, name) -> bool"). *)
Definition Exists (r : ViewRegistry) (db name : string) : bool :=
  match r !! (db, name) with
  | Some _ => true
  | None => false
  end.

(** Modelled from the spec: [ViewRegistry.Register], whose implementation
    is not among the sources ("fails with view already exists if the
    (db, name) key is already present; otherwise inserts").  The registry
    after the call is returned with the error. *)
Definition Register (r : ViewRegistry) (db : string) (view : View)
    : ViewRegistry * option Error :=
  if Exists r db (view_Name view)
  then (r, Some (ErrExistingView db (view_Name view)))
  else (<[(db, view_Name view) := view]> r, None).

(** Modelled from the spec: [ViewRegistry.View], whose implementation is
    not among the sources ("fails with view does not exist if absent"). *)
Definition View_ (r : ViewRegistry) (db name : string) : result View :=
  match r !! (db, name) with
  | Some view => Ok view
  | None => Err (ErrNonExistingView db name)
  end.

(** Modelled from the spec: [ViewRegistry.Delete], whose implementation is
    not among the sources ("fails with view does not exist if absent;
    otherwise removes"). *)
Definition Delete (r : ViewRegistry) (db name : string)
    : ViewRegistry * option Error :=
  if Exists r db name
  then (delete (db, name) r, None)
  else (r, Some (ErrNonExistingView db name)).

(** The first key of the batch that is not registered. *)
Fixpoint firstMissing (r : ViewRegistry) (keys : list ViewKey)
    : option ViewKey :=
  match keys with
  | [] => None
  | key :: rest =>
      if Exists r (dbName key) (viewName key) then firstMissing r rest
      else Some key
  end.

(** Removal of the keys of the batch that are registered; the others are
    skipped. *)
Fixpoint deleteExisting (r : ViewRegistry) (keys : list ViewKey)
    : ViewRegistry :=
  match keys with
  | [] => r
  | key :: rest =>
      if Exists r (dbName key) (viewName key)
      then deleteExisting (delete (keyOf key) r) rest
      else deleteExisting r rest
  end.

(** Modelled from the spec: [ViewRegistry.DeleteList], whose implementation
    is not among the sources ("if errIfNotExists is true, the entire batch
    fails atomically (no partial deletion) on the first missing key; if
    false, missing keys are silently skipped and all existing keys in the
    batch are still removed"). *)
Definition DeleteList (r : ViewRegistry) (keys : list ViewKey)
    (errIfNotExists : bool) : ViewRegistry * option Error :=
  if errIfNotExists then
    match firstMissing r keys with
    | Some key => (r, Some (ErrNonExistingView (dbName key) (viewName key)))
    | None => (deleteExisting r keys, None)
    end
  else (deleteExisting r keys, None).

(** Modelled from the spec: [ViewRegistry.AllViews] ("sequence of View
    across all databases", unordered). *)
Definition AllViews (r : ViewRegistry) : list View :=
  snd <$> map_to_list r.

(** Modelled from the spec: [ViewRegistry.ViewsInDatabase] ("sequence of
    View", unordered). *)
Definition ViewsInDatabase (r : ViewRegistry) (db : string) : list View :=
  snd <$> List.filter (fun kv => String.eqb (fst (fst kv)) db) (map_to_list r).

(** The fixtures of the registry tests (expand_stars.go, lines 92-96 and
    212-233). *)
Definition mockView : View := NewView "myview" None "".

Definition viewKeys : list ViewKey :=
  [mkViewKey "db1" "view1"; mkViewKey "db1" "view2"; mkViewKey "db2" "view1"].

Definition registerKeys (r : ViewRegistry) : ViewRegistry :=
  fold_left
    (fun r key =>
       fst (Register r (dbName key) (NewView (viewName key) None "")))
    viewKeys r.

End viewregistry.

(** ** Package plan: the SET node *)

Module setnode.

(** A session variable's type and value. *)
Abbreviation TypedValue := (SqlType * Value)%type.

(** The session's variable table; names are case-insensitive, so the
    table is keyed by the lower-cased name. *)
Abbreviation Session := (gmap string TypedValue).

Section SetNode.

(** [ToLower] is the lower-casing by which names are compared. *)
Variable ToLower : string -> string.

(** Modelled from the spec: the session's [Set], whose implementation is
    not among the sources (names are "case-insensitive strings"). *)
Definition Session_Set (s : Session) (key : string) (typ : SqlType)
    (value : Value) : Session :=
  <[ToLower key := (typ, value)]> s.

(** Modelled from the spec: the session's [Get], whose implementation is
    not among the sources; a name never written reads as the [Null] type
    and a null value. *)
Definition Session_Get (s : Session) (key : string) : TypedValue :=
  match s !! ToLower key with
  | Some tv => tv
  | None => (Null, VNil)
  end.

(** Modelled from the spec: the name a SET target denotes, computed inside
    [Set.RowIter], which is not among the sources; the sigils of [@@name]
    and [@name] are not part of the name ("SET @@foo = 'bar' followed by
    reading session variable foo"; set_test.go assigns to [@@baz] and
    reads [baz]). *)
Definition varName (lhs : Expression) : option string :=
  match lhs with
  | UnresolvedColumn name => Some (gostrings.TrimLeftAt name)
  | SystemVarExpr v => Some (sv_Name v)
  | UserVarExpr v => Some (uv_Name v)
  | _ => None
  end.

Definition unsupported : Error := Errorf "unsupported syntax".

(** The assignment [e] does not target the variable [x]. *)
Definition leaves (x : string) (e : Expression) : Prop :=
  forall lhs rhs y,
    e = SetField lhs rhs -> varName lhs = Some y ->
    ToLower y <> ToLower x.

(** The compiled-in table [sql.DefaultSessionConfig()], not among the
    sources: each variable name with its default type and value. *)
Variable DefaultSessionConfig : gmap string TypedValue.

(** Modelled from the spec: [sql.NewBaseSession], whose implementation is
    not among the sources ("session creation seeds all session variables
    from the compiled-in default table"). *)
Definition NewBaseSession : Session := DefaultSessionConfig.

(** Modelled from the spec: one assignment of [Set.RowIter], which is not
    among the sources.  A literal is stored with its own type and value;
    DEFAULT re-reads the default table.  The spec does not say what DEFAULT
    does for a name without entry in the table: the model leaves the
    session as it is, and nothing below depends on that case. *)
Definition setOne (s : Session) (e : Expression) : result Session :=
  match e with
  | SetField lhs rhs =>
      match varName lhs with
      | None => Err unsupported
      | Some name =>
          match rhs with
          | DefaultColumn _ =>
              match DefaultSessionConfig !! ToLower name with
              | Some (typ, value) => Ok (Session_Set s name typ value)
              | None => Ok s
              end
          | Literal value typ => Ok (Session_Set s name typ value)
          | _ => Err unsupported
          end
      end
  | _ => Err unsupported
  end.

(** Modelled from the spec: [Set.RowIter], whose implementation is not
    among the sources: the assignments are executed in list order against
    the session ("SET @@foo = 'bar' followed by reading session variable
    foo returns type LongText and value bar"; "an explicit SET var =
    DEFAULT must re-read this table").  Only literals and DEFAULT are
    modelled on the right-hand side. *)
Fixpoint RowIter (Exprs : list Expression) (s : Session) : result Session :=
  match Exprs with
  | [] => Ok s
  | e :: rest => sql.bind (setOne s e) (fun s' => RowIter rest s')
  end.

End SetNode.

(** A sample default table, and the assignments of set_test.go. *)
Definition sampleDefaults : gmap string TypedValue :=
  <["auto_increment_increment" := (Int64, VInt 1)]>
    (<["sql_select_limit" := (Int64, VInt 2147483647)]> ∅).

Definition testSet : list Expression :=
  [SetField (UnresolvedColumn "foo") (Literal (VString "bar") LongText);
   SetField (UnresolvedColumn "@@baz") (Literal (VInt 1) Int64)].

Definition testSetValues : list Expression :=
  [SetField (UnresolvedColumn "auto_increment_increment")
     (Literal (VInt 123) Int64);
   SetField (UnresolvedColumn "@@sql_select_limit") (Literal (VInt 1) Int64)].

Definition testSetDefaults : list Expression :=
  [SetField (UnresolvedColumn "auto_increment_increment") (DefaultColumn "");
   SetField (UnresolvedColumn "@@sql_select_limit") (DefaultColumn "")].

End setnode.

(** ** The rest of the expression and node contracts *)

Module contract.

(** What [WithChildren] returns: the rebuilt node, or the error
    [sql.ErrInvalidChildrenNumber.New(node, got, expected)]. *)
Inductive rebuilt (A : Type) : Type :=
  | Rebuilt (node : A)
  | ErrInvalidChildrenNumber (node : A) (got expected : nat).
Arguments Rebuilt {A} node.
Arguments ErrInvalidChildrenNumber {A} node got expected.

(** [SystemVar.Children] (part_000, line 47). *)
Definition SystemVar_Children (v : SystemVar) : list Expression := [].

(** [SystemVar.WithChildren] (part_000, lines 117-122). *)
Definition SystemVar_WithChildren (v : SystemVar) (children : list Expression)
    : rebuilt SystemVar :=
  if negb (Nat.eqb (length children) 0)
  then ErrInvalidChildrenNumber v (length children) 0
  else Rebuilt v.

(** [UserVar.Children] (part_000, line 148). *)
Definition UserVar_Children (v : UserVar) : list Expression := [].

(** [UserVar.WithChildren] (part_000, lines 181-186). *)
Definition UserVar_WithChildren (v : UserVar) (children : list Expression)
    : rebuilt UserVar :=
  if negb (Nat.eqb (length children) 0)
  then ErrInvalidChildrenNumber v (length children) 0
  else Rebuilt v.

Section Coercibility.

(** [types.IsText] and the [CollationCoercibility] of a type are not among
    the sources. *)
Variable IsText : SqlType -> bool.
Variable Type_CollationCoercibility : SqlType -> CollationID * nat.
Variable SystemVariables : SystemVariableRegistry.

(** [SystemVar.CollationCoercibility] (part_000, lines 91-98). *)
Definition SystemVar_CollationCoercibility (v : SystemVar)
    : CollationID * nat :=
  let typ := SystemVar_Type SystemVariables v in
  if IsText typ then
    let collation := fst (Type_CollationCoercibility typ) in
    (collation, 3)
  else Type_CollationCoercibility typ.

(** [UserVar.CollationCoercibility] (part_000, lines 166-169). *)
Definition UserVar_CollationCoercibility (v : UserVar) : CollationID * nat :=
  let collation := fst (Type_CollationCoercibility (uv_exprType v)) in
  (collation, 2).

End Coercibility.

(** A registry that knows the one variable [autocommit]. *)
Definition sampleRegistry : SystemVariableRegistry :=
  mkSystemVariableRegistry (fun name =>
    if String.eqb (gostrings.asciiToLower name) "autocommit"
    then Some (mkSystemVariable "autocommit" Int64, VInt 1)
    else None).

(** The indices stored in the field references of a list. *)
Definition fieldIndices (l : list Expression) : list nat :=
  flat_map (fun e => match e with
                     | GetField i _ _ _ _ => [i]
                     | _ => []
                     end) l.

(** Two plan nodes are the same operator over the same children. *)
Definition sameChildren (n n' : plan.Node) : Prop :=
  match n, n' with
  | plan.ResolvedTable _ _, plan.ResolvedTable _ _ => True
  | plan.UnresolvedTable _, plan.UnresolvedTable _ => True
  | plan.Project _ c, plan.Project _ c' => c = c'
  | plan.GroupBy _ gs c, plan.GroupBy _ gs' c' => gs = gs' /\ c = c'
  | plan.OtherNode tag es cs, plan.OtherNode tag' es' cs' =>
      tag = tag' /\ es = es' /\ cs = cs'
  | _, _ => False
  end.

(** The wildcards of a Project or GroupBy node over a resolved child have
    been expanded. *)
Definition expandedHere (n : plan.Node) : Prop :=
  match n with
  | plan.Project ps c =>
      plan.Resolved c = true -> forall Table, ~ In (Star Table) ps
  | plan.GroupBy ss _ c =>
      plan.Resolved c = true -> forall Table, ~ In (Star Table) ss
  | _ => True
  end.

(** The same, at every node of a tree. *)
Fixpoint expandedEverywhere (n : plan.Node) : Prop :=
  expandedHere n
  /\ match n with
     | plan.Project _ c | plan.GroupBy _ _ c => expandedEverywhere c
     | plan.OtherNode _ _ cs =>
         (fix all (cs : list plan.Node) : Prop :=
            match cs with
            | [] => True
            | c :: rest => expandedEverywhere c /\ all rest
            end) cs
     | _ => True
     end.

End contract.

(** ** The rest of the replication command nodes *)

Module replication_contract.

Import binlogreplication replication contract.

Section Commands.

Context {St : Type}.

(** How [%s] prints an option value; the value types are not among the
    sources. *)
Variable formatValue : Value -> string.

(** [Children] of the five nodes (lines 78-80, 151-153, 210-212, 269-271,
    336-338). *)
Definition Children (n : Command St) : list plan.Node := [].

(** [Schema] of the five nodes: [nil]. *)
Definition Schema_ (n : Command St) : Schema := [].

(** [CheckPrivileges] of the five nodes. *)
Definition CheckPrivileges (n : Command St) : bool := true.

(** [WithChildren] of the five nodes (lines 91-98, 164-171, 223-230,
    282-289, 349-356): a copy of the node, or the error. *)
Definition WithChildren (n : Command St) (children : list plan.Node)
    : rebuilt (Command St) :=
  if negb (Nat.eqb (length children) 0)
  then ErrInvalidChildrenNumber n (length children) 0
  else Rebuilt n.

(** The loop of [ChangeReplicationSource.String] (lines 65-70): [i] is the
    index of the head of the options still to print, [sb] the builder. *)
Fixpoint writeSourceOptions (i : nat) (options : list ReplicationOption)
    (sb : string) : string :=
  match options with
  | [] => sb
  | option :: rest =>
      let sb := if Nat.ltb 0 i then sb +:+ ", " else sb in
      let sb := sb +:+ (opt_Name option +:+ " = "
                        +:+ formatValue (opt_Value option)) in
      writeSourceOptions (S i) rest sb
  end.

(** The loop of [ChangeReplicationFilter.String] (lines 135-143). *)
Fixpoint writeFilterOptions (i : nat) (options : list ReplicationOption)
    (sb : string) : string :=
  match options with
  | [] => sb
  | option :: rest =>
      let sb := if Nat.ltb 0 i then sb +:+ ", " else sb in
      let sb := sb +:+ opt_Name option in
      let sb := sb +:+ " = " in
      let sb := sb +:+ formatValue (opt_Value option) in
      writeFilterOptions (S i) rest sb
  end.

(** [String] of the five nodes (lines 62-72, 132-145, 202-204, 261-263,
    323-330). *)
Definition String_ (n : Command St) : string :=
  match n with
  | ChangeReplicationSource _ Options =>
      writeSourceOptions 0 Options "CHANGE REPLICATION SOURCE TO "
  | ChangeReplicationFilter _ Options =>
      writeFilterOptions 0 Options "CHANGE REPLICATION FILTER "
  | StartReplica _ => "START REPLICA"
  | StopReplica _ => "STOP REPLICA"
  | ResetReplica _ All =>
      let sb := "RESET REPLICA" in
      if All then sb +:+ " ALL" else sb
  end.

(** One option as the statement text shows it. *)
Definition optionText (option : ReplicationOption) : string :=
  opt_Name option +:+ " = " +:+ formatValue (opt_Value option).

(** The options after the first: each preceded by the separator. *)
Fixpoint separated (options : list ReplicationOption) : string :=
  match options with
  | [] => ""
  | option :: rest => ", " +:+ optionText option +:+ separated rest
  end.

End Commands.

(** A sample printer of option values. *)
Definition sampleFormat (v : Value) : string :=
  match v with
  | VString s => s
  | VInt _ => "<int>"
  | VBool true => "true"
  | VBool false => "false"
  | VNil => "<nil>"
  end.

End replication_contract.

(** * Properties *)

(** ** Star expansion of a projection list *)

Module analyzer_facts.

Import plan analyzer gostrings.

Section Expansion.

Variable ToLower : string -> string.

Lemma starSelects_iff (Table : string) (col : Column) :
  starSelects ToLower Table col = true <-> qualifierMatches ToLower Table col.
Proof.
  unfold starSelects, qualifierMatches.
  rewrite orb_true_iff, !String.eqb_eq. tauto.
Qed.

Lemma starSelects_unqualified (col : Column) : starSelects ToLower "" col =
    true.
Proof. reflexivity. Qed.

(** The inner loop appends, to what was built before, the references to
    the selected columns, numbered from the position it started at. *)
Lemma starLoop_spec (Table : string) (schema : Schema) :
  forall (i : nat) (exprs : list Expression),
    starLoop ToLower Table i schema exprs =
    exprs ++ List.map fieldRef
               (List.filter (fun ic => starSelects ToLower Table (snd ic))
                  (combine (seq i (length schema)) schema)).
Proof.
  induction schema as [|col rest IH]; intros i exprs; simpl.
  - now rewrite app_nil_r.
  - rewrite IH. destruct (starSelects ToLower Table col); simpl.
    + now rewrite <- app_assoc.
    + reflexivity.
Qed.

Lemma starLoop_starColumns (Table : string) (schema : Schema) :
  starLoop ToLower Table 0 schema [] = starColumns ToLower Table schema.
Proof. now rewrite starLoop_spec. Qed.

Lemma combine_seq_lookup (schema : Schema) :
  forall (k i : nat) (col : Column),
    In (i, col) (combine (seq k (length schema)) schema) <->
    k <= i /\ schema !! (i - k) = Some col.
Proof.
  induction schema as [|c rest IH]; intros k i col; simpl.
  - split; [tauto | intros [_ H]; discriminate].
  - rewrite IH. split.
    + intros [H | [Hle Hl]].
      * injection H as <- <-. split; [lia |]. now rewrite Nat.sub_diag.
      * split; [lia |]. replace (i - k) with (S (i - S k)) by lia. exact Hl.
    + intros [Hle Hl]. destruct (i - k) as [|j] eqn:E.
      * left. injection Hl as ->. f_equal. lia.
      * right. split; [lia |]. replace (i - S k) with j by lia. exact Hl.
Qed.

(** The references a wildcard expands to: one for each selected column,
    carrying the column's position, type, source table, name and
    nullability. *)
Lemma starColumns_In (Table : string) (schema : Schema) (e : Expression) :
  In e (starColumns ToLower Table schema) <->
  exists (i : nat) (col : Column),
    schema !! i = Some col /\ qualifierMatches ToLower Table col
    /\ e = GetField i (Typ col) (Source col) (Name col) (Nullable col).
Proof.
  unfold starColumns, positions. rewrite in_map_iff. split.
  - intros [[i col] [<- Hin]]. apply filter_In in Hin as [Hin Hsel].
    apply combine_seq_lookup in Hin as [_ Hl]. rewrite Nat.sub_0_r in Hl.
    exists i, col. repeat split; [exact Hl | now apply starSelects_iff].
  - intros (i & col & Hl & Hq & ->). exists (i, col). split; [reflexivity |].
    apply filter_In. split.
    + apply combine_seq_lookup. split; [lia |]. now rewrite Nat.sub_0_r.
    + now apply starSelects_iff.
Qed.

Lemma starColumns_unqualified (schema : Schema) :
  starColumns ToLower "" schema = List.map fieldRef (positions schema).
Proof.
  unfold starColumns. f_equal.
  induction (positions schema) as [|ic l IH]; simpl; [reflexivity |].
  now rewrite IH.
Qed.

Lemma starColumns_empty_iff (Table : string) (schema : Schema) :
  starColumns ToLower Table schema = [] <->
  forall col, In col schema -> starSelects ToLower Table col = false.
Proof.
  split.
  - intros Hnil col Hin.
    destruct (starSelects ToLower Table col) eqn:E; [| reflexivity].
    apply In_nth_error in Hin as [i Hi].
    assert (In (fieldRef (i, col)) (starColumns ToLower Table schema)) as Habs.
    { apply starColumns_In. exists i, col. repeat split.
      - rewrite <- Hi. clear. revert i.
        induction schema; intros [|i]; simpl; auto.
      - now apply starSelects_iff. }
    rewrite Hnil in Habs. destruct Habs.
  - intros Hall. destruct (starColumns ToLower Table schema) as [|e l] eqn:E;
      [reflexivity |].
    assert (In e (starColumns ToLower Table schema)) as Hin by (rewrite E; now
        left).
    apply starColumns_In in Hin as (i & col & Hl & Hq & _).
    apply starSelects_iff in Hq. rewrite Hall in Hq; [discriminate |].
    apply list_elem_of_In. eapply list_elem_of_lookup_2; eauto.
Qed.

Lemma missingTable_Some (schema : Schema) (e : Expression) (Table : string) :
  missingTable ToLower schema e = Some Table <->
  e = Star Table /\ unmatchedQualifier ToLower Table schema.
Proof.
  unfold unmatchedQualifier. destruct e; simpl;
    try (split; [discriminate | intros [H _]; discriminate]).
  destruct (String.eqb Table0 "") eqn:Eq; simpl.
  - apply String.eqb_eq in Eq. split; [discriminate |].
    intros [H [Hne _]]. injection H as ->. contradiction.
  - apply String.eqb_neq in Eq.
    destruct (forallb _ schema) eqn:Ef.
    + split.
      * intros H. injection H as ->. split; [reflexivity |].
        split; [exact Eq |]. intros col Hin Hl.
        rewrite forallb_forall in Ef. specialize (Ef col Hin).
        apply negb_true_iff in Ef.
        assert (starSelects ToLower Table col = true) as Ht
          by (apply starSelects_iff; now right).
        congruence.
      * intros [H _]. now injection H as ->.
    + split; [discriminate |]. intros [H [_ Hall]]. injection H as ->.
      exfalso. apply not_true_iff_false in Ef. apply Ef.
      apply forallb_forall. intros col Hin. apply negb_true_iff.
      apply not_true_iff_false. intros Hs. apply starSelects_iff in Hs.
      destruct Hs as [Hs | Hs]; [contradiction | exact (Hall col Hin Hs)].
Qed.

(** The test of line 70 is the test for a missing table. *)
Lemma line70_missingTable (Table : string) (schema : Schema) :
  Nat.eqb (length (starLoop ToLower Table 0 schema [])) 0 && negb (String.eqb
      Table "")
  = match missingTable ToLower schema (Star Table) with
    | Some _ => true
    | None => false
    end.
Proof.
  rewrite starLoop_starColumns. simpl.
  destruct (String.eqb Table "") eqn:Eq; simpl; [now rewrite andb_false_r |].
  rewrite andb_true_r.
  destruct (forallb _ schema) eqn:Ef.
  - assert (starColumns ToLower Table schema = []) as ->; [| reflexivity].
    apply starColumns_empty_iff. intros col Hin.
    rewrite forallb_forall in Ef. apply negb_true_iff. now apply Ef.
  - destruct (starColumns ToLower Table schema) eqn:E; [| reflexivity].
    exfalso. apply not_true_iff_false in Ef. apply Ef.
    apply forallb_forall. intros col Hin. apply negb_true_iff.
    revert col Hin. now apply starColumns_empty_iff.
Qed.

(** The outer loop: it stops at the first wildcard naming a missing table,
    and otherwise appends the expansion of every entry in order. *)
Lemma expandLoop_spec (schema : Schema) (exprs : list Expression) :
  forall expressions : list Expression,
    expandLoop ToLower exprs schema expressions =
    match firstMissingTable ToLower schema exprs with
    | Some Table => Err (ErrTableNotFound Table)
    | None => Ok (expressions ++ flat_map (expandOne ToLower schema) exprs)
    end.
Proof.
  induction exprs as [|e rest IH]; intros expressions.
  - simpl. now rewrite app_nil_r.
  - destruct e as [Table| | | | | | |];
      try (cbn [expandLoop firstMissingTable missingTable flat_map expandOne];
           rewrite IH; destruct (firstMissingTable ToLower schema rest);
           [reflexivity | now rewrite <- app_assoc]).
    cbn [expandLoop firstMissingTable flat_map expandOne].
    rewrite line70_missingTable.
    destruct (missingTable ToLower schema (Star Table)) as [T|] eqn:Em.
    + apply missingTable_Some in Em as [H _]. now injection H as ->.
    + rewrite IH, starLoop_starColumns.
      destruct (firstMissingTable ToLower schema rest);
        [reflexivity | now rewrite <- app_assoc].
Qed.

Lemma firstMissingTable_Some (schema : Schema) (exprs : list Expression)
    (Table : string) :
  firstMissingTable ToLower schema exprs = Some Table ->
  In (Star Table) exprs /\ unmatchedQualifier ToLower Table schema.
Proof.
  induction exprs as [|e rest IH]; simpl; [discriminate |].
  destruct (missingTable ToLower schema e) as [T|] eqn:Em.
  - intros H. injection H as ->. apply missingTable_Some in Em as [-> Hu].
    split; [now left | exact Hu].
  - intros H. destruct (IH H) as [Hin Hu]. split; [now right | exact Hu].
Qed.

(** The qualifier reported is that of the first wildcard, in list order,
    that names a missing table. *)
Lemma firstMissingTable_first (schema : Schema) (exprs : list Expression)
    (Table : string) :
  firstMissingTable ToLower schema exprs = Some Table ->
  exists pre post,
    exprs = pre ++ Star Table :: post
    /\ firstMissingTable ToLower schema pre = None.
Proof.
  induction exprs as [|e rest IH]; simpl; [discriminate |].
  destruct (missingTable ToLower schema e) as [T|] eqn:Em.
  - intros H. injection H as ->. apply missingTable_Some in Em as [-> _].
    exists [], rest. split; reflexivity.
  - intros H. destruct (IH H) as (pre & post & -> & Hpre).
    exists (e :: pre), post. split; [reflexivity |]. simpl. now rewrite Em.
Qed.

Lemma firstMissingTable_None (schema : Schema) (exprs : list Expression) :
  firstMissingTable ToLower schema exprs = None <->
  forall Table, In (Star Table) exprs -> ~ unmatchedQualifier ToLower Table
      schema.
Proof.
  induction exprs as [|e rest IH]; simpl.
  - split; [intros _ T [] | reflexivity].
  - destruct (missingTable ToLower schema e) as [T|] eqn:Em.
    + split; [discriminate |]. intros Hall.
      apply missingTable_Some in Em as [-> Hu].
      exfalso. apply (Hall T); [now left | exact Hu].
    + rewrite IH. split.
      * intros Hall T [-> | Hin] Hu; [| exact (Hall T Hin Hu)].
        assert (missingTable ToLower schema (Star T) = Some T) as Habs
          by (apply missingTable_Some; split; [reflexivity | exact Hu]).
        congruence.
      * intros Hall T Hin. apply Hall. now right.
Qed.


Lemma expandOne_not_star (schema : Schema) (e : Expression) :
  (forall Table, e <> Star Table) -> expandOne ToLower schema e = [e].
Proof.
  intros H. destruct e; try reflexivity. now destruct (H Table).
Qed.

Lemma expandStarsForExpressions_spec {TableAliases : Type}
    (exprs : list Expression) (schema : Schema) (ta : TableAliases) :
  expandStarsForExpressions ToLower exprs schema ta =
  match firstMissingTable ToLower schema exprs with
  | Some Table => Err (ErrTableNotFound Table)
  | None => Ok (flat_map (expandOne ToLower schema) exprs)
  end.
Proof. unfold expandStarsForExpressions. now rewrite expandLoop_spec. Qed.


(** C2: the expansion of a projection list fails exactly when some wildcard
    of the list has a non-empty qualifier that no column's source table
    matches; the error is then "table not found" and names the qualifier
    of the first such wildcard of the list, so for a single wildcard that
    wildcard's qualifier.
    An unqualified wildcard over a schema without columns expands to the
    empty list without error. *)
Theorem expandStarsForExpressions_table_not_found {TableAliases : Type}
    (exprs : list Expression) (schema : Schema) (ta : TableAliases) :
  ((exists err, expandStarsForExpressions ToLower exprs schema ta = Err err) <->
   (exists Table, In (Star Table) exprs /\ unmatchedQualifier ToLower Table
       schema))
  /\ (forall err,
        expandStarsForExpressions ToLower exprs schema ta = Err err ->
        exists Table pre post,
          err = ErrTableNotFound Table /\ unmatchedQualifier ToLower Table
              schema
          /\ exprs = pre ++ Star Table :: post
          /\ forall T, In (Star T) pre -> ~ unmatchedQualifier ToLower T schema)
  /\ (forall Table,
        expandStarsForExpressions ToLower [Star Table] schema ta
        = Err (ErrTableNotFound Table) <-> unmatchedQualifier ToLower Table
            schema)
  /\ (forall Table,
        ~ unmatchedQualifier ToLower Table schema ->
        expandStarsForExpressions ToLower [Star Table] schema ta
        = Ok (starColumns ToLower Table schema))
  /\ expandStarsForExpressions ToLower [Star ""] [] ta = Ok [].
Proof.
  assert (forall err,
    expandStarsForExpressions ToLower exprs schema ta = Err err ->
    exists Table pre post,
      err = ErrTableNotFound Table /\ unmatchedQualifier ToLower Table schema
      /\ exprs = pre ++ Star Table :: post
      /\ forall T, In (Star T) pre -> ~ unmatchedQualifier ToLower T schema) as
          Herr.
  { intros err H. rewrite expandStarsForExpressions_spec in H.
    destruct (firstMissingTable ToLower schema exprs) as [T|] eqn:E; [|
        discriminate].
    injection H as <-.
    destruct (firstMissingTable_first _ _ _ E) as (pre & post & Heq & Hpre).
    exists T, pre, post. split; [reflexivity |].
    split; [now apply (firstMissingTable_Some schema exprs) |].
    split; [exact Heq | now apply firstMissingTable_None]. }
  assert (forall Table,
    ~ unmatchedQualifier ToLower Table schema ->
    expandStarsForExpressions ToLower [Star Table] schema ta
    = Ok (starColumns ToLower Table schema)) as Hok.
  { intros Table Hn. rewrite expandStarsForExpressions_spec.
    assert (firstMissingTable ToLower schema [Star Table] = None) as ->.
    { apply firstMissingTable_None. intros T [H | []]. now injection H as <-. }
    simpl. now rewrite app_nil_r. }
  split; [| split; [exact Herr | split; [| split; [exact Hok | reflexivity]]]].
  - split.
    + intros [err H].
      destruct (Herr err H) as (T & pre & post & _ & Hu & -> & _).
      exists T. split; [apply in_elt | exact Hu].
    + intros (T & Hin & Hu). rewrite expandStarsForExpressions_spec.
      destruct (firstMissingTable ToLower schema exprs) as [T'|] eqn:E; [eauto
          |].
      exfalso. rewrite firstMissingTable_None in E. exact (E T Hin Hu).
  - intros Table. split.
    + intros H. rewrite expandStarsForExpressions_spec in H.
      destruct (firstMissingTable ToLower schema [Star Table]) as [T|] eqn:E;
        [| discriminate].
      apply firstMissingTable_Some in E as [[Hin | []] Hu].
      injection H as <-. exact Hu.
    + intros Hu. rewrite expandStarsForExpressions_spec.
      assert (missingTable ToLower schema (Star Table) = Some Table) as Hm
        by (apply missingTable_Some; split; [reflexivity | exact Hu]).
      cbn [firstMissingTable]. now rewrite Hm.
Qed.


End Expansion.

(** Projecting [*] over the columns [a], [b] of [t] yields [t.a, t.b]. *)
Example expand_unqualified_t_ab :
  expandStarsForExpressions asciiToLower [Star ""] schema_t_ab tt =
  Ok [GetField 0 Int64 "t" "a" false; GetField 1 LongText "t" "b" true].
Proof. reflexivity. Qed.

(** The qualifier is compared without regard to letter case, and the other
    entries keep their place. *)
Example expand_qualified_mixed :
  expandStarsForExpressions asciiToLower
    [UnresolvedColumn "x"; Star "T"; Literal (VInt 1) Int64]
    schema_u_a_t_b tt =
  Ok [UnresolvedColumn "x"; GetField 1 LongText "t" "b" true;
      Literal (VInt 1) Int64].
Proof. reflexivity. Qed.

Example expand_missing_table :
  expandStarsForExpressions asciiToLower [Star "a"; Star "missing"]
      schema_u_a_t_b tt =
  Err (ErrTableNotFound "a").
Proof. reflexivity. Qed.



(** Projecting [missing.*] over a schema without such a table fails. *)
Lemma expandStarsForExpressions_table_not_found_witness :
  expandStarsForExpressions asciiToLower [Star "missing"] schema_u_a_t_b tt
  = Err (ErrTableNotFound "missing").
Proof.
  apply (proj1 (proj2 (proj2 (expandStarsForExpressions_table_not_found
      asciiToLower
                                [Star "missing"] schema_u_a_t_b tt)))).
  split; [discriminate |].
  intros col [<- | [<- | []]]; simpl; discriminate.
Defined.

End analyzer_facts.

(** ** The rule [expandStars] on resolved trees *)

Module expandStars_facts.

Import plan analyzer gostrings.

(** Induction on plan trees, with the hypothesis available for every child
    of a node with a list of children. *)
Lemma Node_nested_ind (P : Node -> Prop) :
  (forall name schema, P (ResolvedTable name schema)) ->
  (forall name, P (UnresolvedTable name)) ->
  (forall ps c, P c -> P (Project ps c)) ->
  (forall ss gs c, P c -> P (GroupBy ss gs c)) ->
  (forall tag es cs, Forall P cs -> P (OtherNode tag es cs)) ->
  forall n, P n.
Proof.
  intros Hr Hu Hp Hg Ho.
  fix IH 1. intros [name schema | name | ps c | ss gs c | tag es cs].
  - apply Hr.
  - apply Hu.
  - apply Hp, IH.
  - apply Hg, IH.
  - apply Ho.
    induction cs as [|c cs IHcs]; constructor; [apply IH | exact IHcs].
Qed.

Section Rule.

Variable ToLower : string -> string.
Context {TableAliases Scope : Type}.
Variable getTableAliases : Node -> Scope -> result TableAliases.
Variable Node_Schema : Node -> Schema.

Lemma expandStarsNode_resolved (ta : TableAliases) (n : Node) :
  Resolved n = true -> expandStarsNode ToLower Node_Schema ta n = Ok n.
Proof. intros H. unfold expandStarsNode. now rewrite H. Qed.

Lemma expandStarsNode_Project_waits (ta : TableAliases)
    (ps : list Expression) (c : Node) :
  Resolved c = false ->
  expandStarsNode ToLower Node_Schema ta (Project ps c) = Ok (Project ps c).
Proof. intros H. unfold expandStarsNode. simpl. now rewrite H. Qed.

Lemma expandStarsNode_GroupBy_waits (ta : TableAliases)
    (ss gs : list Expression) (c : Node) :
  Resolved c = false ->
  expandStarsNode ToLower Node_Schema ta (GroupBy ss gs c) = Ok (GroupBy ss gs
      c).
Proof. intros H. unfold expandStarsNode. simpl. now rewrite H. Qed.

(** A bottom-up transformation by a function that returns resolved nodes
    as they are leaves a resolved tree as it is. *)
Lemma TransformUp_resolved (f : Node -> result Node) :
  (forall m, Resolved m = true -> f m = Ok m) ->
  forall n, Resolved n = true -> TransformUp n f = Ok n.
Proof.
  intros Hf n. induction n as [name schema | name | ps c IH | ss gs c IH
                               | tag es cs IH] using Node_nested_ind;
    intros Hres.
  - now apply Hf.
  - now apply Hf.
  - simpl. pose proof Hres as Hres'. simpl in Hres'.
    apply andb_true_iff in Hres' as [Hc _]. rewrite (IH Hc). simpl.
    now apply Hf.
  - simpl. pose proof Hres as Hres'. simpl in Hres'.
    apply andb_true_iff in Hres' as [Hc _].
    apply andb_true_iff in Hc as [Hc _]. rewrite (IH Hc). simpl.
    now apply Hf.
  - simpl. pose proof Hres as Hres'. simpl in Hres'.
    apply andb_true_iff in Hres' as [_ Hcs].
    match goal with
    | |- sql.bind ?t _ = _ => assert (t = Ok cs) as ->
    end.
    { clear Hres. induction cs as [|c cs IHcs]; [reflexivity |].
      simpl in Hcs. apply andb_true_iff in Hcs as [Hc Hcs].
      inversion IH as [|? ? IHc IHrest]; subst.
      rewrite (IHc Hc). simpl. rewrite (IHcs IHrest Hcs). reflexivity. }
    simpl. now apply Hf.
Qed.

Lemma expandStars_resolved (n : Node) (scope : Scope) :
  Resolved n = true ->
  expandStars ToLower getTableAliases Node_Schema n scope =
  sql.bind (getTableAliases n scope) (fun _ => Ok n).
Proof.
  intros H. unfold expandStars. destruct (getTableAliases n scope); simpl;
    [| reflexivity].
  apply TransformUp_resolved; [| exact H].
  intros m. apply expandStarsNode_resolved.
Qed.

(** C4: the function the rule applies to each node returns a resolved
    node, and a Project or GroupBy node whose child is not resolved, as it
    is and without error.  On a resolved tree the whole rule returns the
    tree itself whenever the alias map could be collected, and applying
    the rule to its own result gives what one application gives. *)
Theorem expandStars_idempotent_on_resolved :
  (forall (ta : TableAliases) n,
     Resolved n = true -> expandStarsNode ToLower Node_Schema ta n = Ok n)
  /\ (forall (ta : TableAliases) ps c,
        Resolved c = false ->
        expandStarsNode ToLower Node_Schema ta (Project ps c) = Ok (Project ps
            c))
  /\ (forall (ta : TableAliases) ss gs c,
        Resolved c = false ->
        expandStarsNode ToLower Node_Schema ta (GroupBy ss gs c)
        = Ok (GroupBy ss gs c))
  /\ (forall n scope ta,
        Resolved n = true -> getTableAliases n scope = Ok ta ->
        expandStars ToLower getTableAliases Node_Schema n scope = Ok n)
  /\ (forall n scope,
        Resolved n = true ->
        sql.bind (expandStars ToLower getTableAliases Node_Schema n scope)
          (fun n' => expandStars ToLower getTableAliases Node_Schema n' scope)
        = expandStars ToLower getTableAliases Node_Schema n scope).
Proof.
  split; [exact expandStarsNode_resolved |].
  split; [exact expandStarsNode_Project_waits |].
  split; [exact expandStarsNode_GroupBy_waits |].
  split.
  - intros n scope ta Hres Hta. rewrite expandStars_resolved by exact Hres.
    now rewrite Hta.
  - intros n scope Hres. rewrite (expandStars_resolved n scope Hres).
    destruct (getTableAliases n scope) as [ta|err] eqn:E; simpl;
      [| reflexivity].
    rewrite (expandStars_resolved n scope Hres). now rewrite E.
Qed.

End Rule.

(** A projection over a bound table whose list is already expanded is
    returned as it is. *)
Lemma expandStars_idempotent_on_resolved_witness :
  expandStars asciiToLower noAliases sampleSchema
    (Project [GetField 0 Int64 "t" "a" false] (ResolvedTable "t" schema_t_ab))
    tt
  = Ok (Project [GetField 0 Int64 "t" "a" false]
          (ResolvedTable "t" schema_t_ab)).
Proof.
  exact (proj1 (proj2 (proj2 (proj2
           (expandStars_idempotent_on_resolved asciiToLower noAliases
               sampleSchema))))
           (Project [GetField 0 Int64 "t" "a" false]
              (ResolvedTable "t" schema_t_ab))
           tt tt eq_refl eq_refl).
Defined.

(** The rule expands the wildcard of a projection over a bound table, below
    another operator too, and a second application changes nothing. *)
Example expandStars_expands :
  expandStars asciiToLower noAliases sampleSchema
    (OtherNode "Limit" [Literal (VInt 1) Int64]
       [Project [Star ""] (ResolvedTable "t" schema_t_ab)]) tt
  = Ok (OtherNode "Limit" [Literal (VInt 1) Int64]
          [Project [GetField 0 Int64 "t" "a" false;
                    GetField 1 LongText "t" "b" true]
             (ResolvedTable "t" schema_t_ab)]).
Proof. reflexivity. Qed.

Example expandStars_twice :
  sql.bind
    (expandStars asciiToLower noAliases sampleSchema
       (Project [Star "T"] (ResolvedTable "t" schema_t_ab)) tt)
    (fun n => expandStars asciiToLower noAliases sampleSchema n tt)
  = expandStars asciiToLower noAliases sampleSchema
      (Project [Star "T"] (ResolvedTable "t" schema_t_ab)) tt.
Proof. reflexivity. Qed.

(** A projection over a table that is not bound yet waits for a later
    pass. *)
Example expandStars_waits :
  expandStars asciiToLower noAliases sampleSchema
    (Project [Star ""] (UnresolvedTable "t")) tt
  = Ok (Project [Star ""] (UnresolvedTable "t")).
Proof. reflexivity. Qed.

Example expandStars_missing_table :
  expandStars asciiToLower noAliases sampleSchema
    (GroupBy [Star "u"] [] (ResolvedTable "t" schema_t_ab)) tt
  = Err (ErrTableNotFound "u").
Proof. reflexivity. Qed.

End expandStars_facts.

(** ** System and user variable expressions *)

Module expression_facts.

Import gostrings.

Section Variables_.

Variable ToLower : string -> string.
Variable CharacterSetName : CollationID -> string.
Variable CollationName : CollationID -> string.
Variable SystemVariables : SystemVariableRegistry.

Lemma SystemVar_Eval_session_other (v : SystemVar) (ctx : Context) :
  sv_Scope v = SystemVariableScope_Session ->
  ToLower (sv_Name v) <> "character_set_database" ->
  ToLower (sv_Name v) <> "collation_database" ->
  SystemVar_Eval ToLower CharacterSetName CollationName SystemVariables v ctx
  = (GetSessionVariable ctx (sv_Name v), [ReadSessionVariable (sv_Name v)]).
Proof.
  intros Hs H1 H2. unfold SystemVar_Eval. rewrite Hs.
  apply String.eqb_neq in H1, H2. rewrite H1, H2.
  now destruct (GetSessionVariable ctx (sv_Name v)).
Qed.

(** C3: for a session-scoped system variable whose lower-cased name is
    [character_set_database] (respectively [collation_database]),
    evaluation reads no variable store at all and returns the name of the
    character set (respectively the name) of the collation the expression
    carries for the current database, whatever the context holds; every
    other session-scoped name is read through the session variable store,
    once, and what the store returns is the result. *)
Theorem SystemVar_Eval_session (v : SystemVar) (ctx : Context) :
  sv_Scope v = SystemVariableScope_Session ->
  (ToLower (sv_Name v) = "character_set_database" ->
   SystemVar_Eval ToLower CharacterSetName CollationName SystemVariables v ctx
   = (Ok (VString (CharacterSetName (sv_Collation v))), []))
  /\ (ToLower (sv_Name v) = "collation_database" ->
      SystemVar_Eval ToLower CharacterSetName CollationName SystemVariables v
          ctx
      = (Ok (VString (CollationName (sv_Collation v))), []))
  /\ (ToLower (sv_Name v) <> "character_set_database" ->
      ToLower (sv_Name v) <> "collation_database" ->
      SystemVar_Eval ToLower CharacterSetName CollationName SystemVariables v
          ctx
      = (GetSessionVariable ctx (sv_Name v),
         [ReadSessionVariable (sv_Name v)])).
Proof.
  intros Hs. repeat split.
  - intros H. unfold SystemVar_Eval. now rewrite Hs, H.
  - intros H. unfold SystemVar_Eval. now rewrite Hs, H.
  - now apply SystemVar_Eval_session_other.
Qed.

(** C10: a system variable expression and a user variable expression are
    resolved whatever their name; an unknown name shows up as the [Null]
    type of a system variable, as the "unknown system variable" error of
    the evaluation of a global one, and as the error of the session store
    or of the user variable store, handed on by the evaluation. *)
Theorem variables_always_resolved :
  (forall v, SystemVar_Resolved v = true)
  /\ (forall v, UserVar_Resolved v = true)
  /\ (forall v, Resolved (SystemVarExpr v) = true)
  /\ (forall v, Resolved (UserVarExpr v) = true)
  /\ (forall v,
        GetGlobal SystemVariables (sv_Name v) = None ->
        SystemVar_Type SystemVariables v = Null)
  /\ (forall v ctx,
        sv_Scope v = SystemVariableScope_Global ->
        GetGlobal SystemVariables (sv_Name v) = None ->
        SystemVar_Eval ToLower CharacterSetName CollationName SystemVariables v
            ctx
        = (Err (ErrUnknownSystemVariable (sv_Name v)),
           [ReadGlobal (sv_Name v)]))
  /\ (forall v ctx err,
        sv_Scope v = SystemVariableScope_Session ->
        ToLower (sv_Name v) <> "character_set_database" ->
        ToLower (sv_Name v) <> "collation_database" ->
        GetSessionVariable ctx (sv_Name v) = Err err ->
        fst (SystemVar_Eval ToLower CharacterSetName CollationName
            SystemVariables
               v ctx) = Err err)
  /\ (forall v ctx err,
        GetUserVariable ctx (uv_Name v) = Err err ->
        fst (UserVar_Eval v ctx) = Err err).
Proof.
  repeat split.
  - intros v H. unfold SystemVar_Type. now rewrite H.
  - intros v ctx Hs H. unfold SystemVar_Eval. now rewrite Hs, H.
  - intros v ctx err Hs H1 H2 H.
    rewrite (SystemVar_Eval_session_other v ctx Hs H1 H2). exact H.
  - intros v ctx err H. unfold UserVar_Eval. now rewrite H.
Qed.

End Variables_.

(** [@@Character_Set_Database] is answered from the collation of the
    expression, although the session store knows no variable. *)
Lemma SystemVar_Eval_session_witness :
  SystemVar_Eval asciiToLower sampleCharacterSetName sampleCollationName
      emptyRegistry
    (mkSystemVar "Character_Set_Database" 45 SystemVariableScope_Session "")
    emptyContext
  = (Ok (VString "utf8mb4"), []).
Proof.
  exact (proj1 (SystemVar_Eval_session asciiToLower sampleCharacterSetName
                  sampleCollationName emptyRegistry
                  (mkSystemVar "Character_Set_Database" 45
                     SystemVariableScope_Session "")
                  emptyContext eq_refl) eq_refl).
Defined.

Example SystemVar_Eval_collation_database :
  SystemVar_Eval asciiToLower sampleCharacterSetName sampleCollationName
      emptyRegistry
    (mkSystemVar "COLLATION_DATABASE" 45 SystemVariableScope_Session "session")
    emptyContext
  = (Ok (VString "utf8mb4_general_ci"), []).
Proof. reflexivity. Qed.

Example SystemVar_Eval_other_session_variable :
  SystemVar_Eval asciiToLower sampleCharacterSetName sampleCollationName
      emptyRegistry
    (NewSystemVar "autocommit" SystemVariableScope_Session "") emptyContext
  = (Err (ErrUnknownSystemVariable "autocommit"),
     [ReadSessionVariable "autocommit"]).
Proof. reflexivity. Qed.

(** A global variable no registry knows: resolved, typed [Null], and an
    error only when evaluated. *)
Lemma variables_always_resolved_witness :
  SystemVar_Eval asciiToLower sampleCharacterSetName sampleCollationName
      emptyRegistry
    (NewSystemVar "nope" SystemVariableScope_Global "") emptyContext
  = (Err (ErrUnknownSystemVariable "nope"), [ReadGlobal "nope"]).
Proof.
  exact (proj1 (proj2 (proj2 (proj2 (proj2 (proj2
           (variables_always_resolved asciiToLower sampleCharacterSetName
              sampleCollationName emptyRegistry))))))
           (NewSystemVar "nope" SystemVariableScope_Global "") emptyContext
           eq_refl eq_refl).
Defined.

End expression_facts.

(** ** Replication commands *)

Module replication_facts.

Import replication gostrings.

Section Commands.

Context {S : Type}.

Lemma RowIter_unbound (n : Command S) (ctx : Context) (s : S) :
  replicaController n = None ->
  RowIter n ctx s = ((None, Some noController), s).
Proof. destruct n; simpl; now intros ->. Qed.

Lemma RowIter_bound (n : Command S) (ctx : Context) (s : S)
    (c : binlogreplication.BinlogReplicaController S) :
  replicaController n = Some c ->
  RowIter n ctx s
  = ((Some RowsToRowIter, fst (invoke c n ctx s)), snd (invoke c n ctx s)).
Proof.
  destruct n; simpl; intros ->;
    match goal with
    | |- (let '(_, _) := ?call in _) = _ => now destruct call
    end.
Qed.

(** C8: for each of the five replication commands, executing the node
    returns no iterator and the error "no replication controller
    available", leaving the controller untouched, exactly when the node's
    controller is nil; a node built by its constructor has a nil
    controller, and [WithBinlogReplicaController] is what sets it.  When a
    controller is bound, the node's operation of that controller is called
    with the node's arguments, and its error is returned next to an empty
    iterator. *)
Theorem RowIter_needs_replica_controller (n : Command S) (ctx : Context)
    (s : S) :
  (RowIter n ctx s = ((None, Some noController), s) <->
   replicaController n = None)
  /\ (forall c,
        replicaController n = Some c ->
        RowIter n ctx s
        = ((Some RowsToRowIter, fst (invoke c n ctx s)),
           snd (invoke c n ctx s)))
  /\ (forall c, replicaController (WithBinlogReplicaController n c) = c)
  /\ (forall c,
        invoke c (WithBinlogReplicaController n (Some c)) ctx s
        = invoke c n ctx s)
  /\ (forall options all,
        replicaController (S := S) (NewChangeReplicationSource options) = None
        /\ replicaController (S := S) (NewChangeReplicationFilter options)
           = None
        /\ replicaController (S := S) NewStartReplica = None
        /\ replicaController (S := S) NewStopReplica = None
        /\ replicaController (S := S) (NewResetReplica all) = None).
Proof.
  split; [| split; [| split; [| split]]].
  - split; [| apply RowIter_unbound].
    destruct (replicaController n) as [c|] eqn:E; [| reflexivity].
    rewrite (RowIter_bound n ctx s c E). discriminate.
  - intros c. apply RowIter_bound.
  - intros c. now destruct n.
  - intros c. now destruct n.
  - intros options all. repeat split.
Qed.

End Commands.

(** START REPLICA with the sample controller bound calls its
    [StartReplica]; without a controller it fails and calls nothing. *)
Lemma RowIter_needs_replica_controller_witness :
  RowIter
    (WithBinlogReplicaController NewStartReplica (Some loggingController))
    emptyContext []
  = ((Some RowsToRowIter, None), ["StartReplica"]).
Proof.
  exact (proj1 (proj2 (RowIter_needs_replica_controller
                         (WithBinlogReplicaController NewStartReplica
                            (Some loggingController))
                         emptyContext []))
           loggingController eq_refl).
Defined.

Example RowIter_without_controller :
  RowIter (S := list string) (NewResetReplica true) emptyContext ["earlier"]
  = ((None, Some (Errorf "no replication controller available")),
     ["earlier"]).
Proof. reflexivity. Qed.

Example RowIter_ResetReplica_all :
  RowIter
    (WithBinlogReplicaController (NewResetReplica true)
       (Some loggingController))
    emptyContext ["earlier"]
  = ((Some [], None), ["ResetReplica"; "earlier"]).
Proof. reflexivity. Qed.

End replication_facts.

(** ** The view registry *)

Module viewregistry_facts.

Import viewregistry gostrings.

Lemma Exists_true (r : ViewRegistry) (db name : string) :
  Exists r db name = true <-> is_Some (r !! (db, name)).
Proof.
  unfold Exists, is_Some.
  destruct (r !! (db, name));
    (split;
     [eauto || discriminate | reflexivity || (intros [? ?]; discriminate)]).
Qed.

Lemma Exists_false (r : ViewRegistry) (db name : string) :
  Exists r db name = false <-> r !! (db, name) = None.
Proof. unfold Exists. now destruct (r !! (db, name)). Qed.

Lemma firstMissing_None (r : ViewRegistry) (keys : list ViewKey) :
  firstMissing r keys = None <->
  forall key, In key keys -> Exists r (dbName key) (viewName key) = true.
Proof.
  induction keys as [|k rest IH]; simpl.
  - split; [intros _ key [] | reflexivity].
  - destruct (Exists r (dbName k) (viewName k)) eqn:E.
    + rewrite IH. split.
      * intros H key [<- | Hin]; [exact E | now apply H].
      * intros H key Hin. apply H. now right.
    + split; [discriminate |]. intros H.
      rewrite (H k) in E; [discriminate | now left].
Qed.

Lemma firstMissing_Some (r : ViewRegistry) (keys : list ViewKey)
    (key : ViewKey) :
  firstMissing r keys = Some key ->
  In key keys /\ Exists r (dbName key) (viewName key) = false.
Proof.
  induction keys as [|k rest IH]; simpl; [discriminate |].
  destruct (Exists r (dbName k) (viewName k)) eqn:E.
  - intros H. destruct (IH H). auto.
  - intros H. injection H as <-. auto.
Qed.

(** After the removal loop a key of the batch is absent and every other
    key is as before. *)
Lemma deleteExisting_lookup (keys : list ViewKey) :
  forall (r : ViewRegistry) (k : string * string),
    (In k (List.map keyOf keys) -> deleteExisting r keys !! k = None)
    /\ (~ In k (List.map keyOf keys) -> deleteExisting r keys !! k = r !! k).
Proof.
  induction keys as [|key rest IH]; intros r k; simpl.
  - split; [intros [] | reflexivity].
  - destruct (Exists r (dbName key) (viewName key)) eqn:E.
    + destruct (IH (delete (keyOf key) r) k) as [IHin IHout]. split.
      * intros [<- | Hin]; [| now apply IHin].
        destruct (in_dec (prod_eq_dec (A := string) (B := string))
                    (keyOf key) (List.map keyOf rest)) as [Hin | Hout];
          [now apply IHin |].
        rewrite (IHout Hout). apply lookup_delete_eq.
      * intros Hout. rewrite IHout by tauto.
        apply lookup_delete_ne. tauto.
    + apply Exists_false in E.
      destruct (IH r k) as [IHin IHout]. split.
      * intros [<- | Hin]; [| now apply IHin].
        destruct (in_dec (prod_eq_dec (A := string) (B := string))
                    (keyOf key) (List.map keyOf rest)) as [Hin | Hout];
          [now apply IHin |].
        rewrite (IHout Hout). exact E.
      * intros Hout. apply IHout. tauto.
Qed.

(** C5: with [errIfNotExists] true, a batch containing a key that is not
    registered leaves the registry as it was and fails with "view does not
    exist" for a missing key of the batch; a batch whose keys are all
    registered succeeds.  With [errIfNotExists] false the call always
    succeeds.  Whenever the call succeeds, every key of the batch is
    absent afterwards and every other key is unchanged. *)
Theorem DeleteList_atomic (r : ViewRegistry) (keys : list ViewKey) :
  ((exists key, In key keys /\ r !! keyOf key = None) ->
   exists key,
     In key keys /\ r !! keyOf key = None
     /\ DeleteList r keys true
        = (r, Some (ErrNonExistingView (dbName key) (viewName key))))
  /\ ((forall key, In key keys -> is_Some (r !! keyOf key)) ->
      DeleteList r keys true = (deleteExisting r keys, None))
  /\ DeleteList r keys false = (deleteExisting r keys, None)
  /\ (forall k,
        (In k (List.map keyOf keys) -> deleteExisting r keys !! k = None)
        /\ (~ In k (List.map keyOf keys) ->
            deleteExisting r keys !! k = r !! k)).
Proof.
  split; [| split; [| split; [reflexivity | apply deleteExisting_lookup]]].
  - intros (key & Hin & Hnone). unfold DeleteList.
    destruct (firstMissing r keys) as [k|] eqn:E.
    + apply firstMissing_Some in E as [Hk Hex]. apply Exists_false in Hex.
      exists k. auto.
    + rewrite firstMissing_None in E. specialize (E key Hin).
      apply Exists_true in E as [v Hv]. unfold keyOf in Hnone. congruence.
  - intros Hall. unfold DeleteList.
    assert (firstMissing r keys = None) as ->; [| reflexivity].
    apply firstMissing_None. intros key Hin. apply Exists_true.
    exact (Hall key Hin).
Qed.

(** C6: [Register] fails with "view already exists" exactly when the key
    (database, view name) is registered, and inserts the view otherwise;
    [View] and [Delete] fail with "view does not exist" exactly when the
    key is not registered, [View] returning the registered view and
    [Delete] removing it otherwise.  A view that was just registered is
    what [View] returns for its key, registering it again fails, and after
    a successful [Delete] the lookup fails. *)
Theorem ViewRegistry_lifecycle (r : ViewRegistry) (db name : string)
    (view : View) :
  (is_Some (r !! (db, view_Name view)) <->
   Register r db view = (r, Some (ErrExistingView db (view_Name view))))
  /\ (r !! (db, view_Name view) = None <->
      Register r db view = (<[(db, view_Name view) := view]> r, None))
  /\ (r !! (db, name) = None <->
      View_ r db name = Err (ErrNonExistingView db name))
  /\ (forall v, r !! (db, name) = Some v <-> View_ r db name = Ok v)
  /\ (r !! (db, name) = None <->
      Delete r db name = (r, Some (ErrNonExistingView db name)))
  /\ (is_Some (r !! (db, name)) <->
      Delete r db name = (delete (db, name) r, None))
  /\ (snd (Register r db view) = None ->
      View_ (fst (Register r db view)) db (view_Name view) = Ok view
      /\ Register (fst (Register r db view)) db view
         = (fst (Register r db view),
            Some (ErrExistingView db (view_Name view))))
  /\ (snd (Delete r db name) = None ->
      View_ (fst (Delete r db name)) db name
      = Err (ErrNonExistingView db name)).
Proof.
  unfold Register, View_, Delete, Exists.
  repeat split.
  - intros [v ->]. reflexivity.
  - destruct (r !! (db, view_Name view)); [eauto | discriminate].
  - intros ->. reflexivity.
  - destruct (r !! (db, view_Name view)); [discriminate | reflexivity].
  - intros ->. reflexivity.
  - destruct (r !! (db, name)); [discriminate | reflexivity].
  - intros ->. reflexivity.
  - destruct (r !! (db, name)); congruence.
  - intros ->. reflexivity.
  - destruct (r !! (db, name)); [discriminate | reflexivity].
  - intros [v ->]. reflexivity.
  - destruct (r !! (db, name)); [eauto | discriminate].
  - destruct (r !! (db, view_Name view)); [discriminate |]. simpl.
    now rewrite lookup_insert_eq.
  - destruct (r !! (db, view_Name view)); [discriminate |]. simpl.
    now rewrite lookup_insert_eq.
  - destruct (r !! (db, name)); [| discriminate]. simpl.
    now rewrite lookup_delete_eq.
Qed.

(** The batch of the partial-deletion test: the three registered keys and
    one that is not registered.  With [errIfNotExists] the registry is
    left as it was. *)
Lemma DeleteList_atomic_witness :
  exists key,
    In key (viewKeys ++ [mkViewKey "random" "random"])
    /\ registerKeys NewViewRegistry !! keyOf key = None
    /\ DeleteList (registerKeys NewViewRegistry)
         (viewKeys ++ [mkViewKey "random" "random"]) true
       = (registerKeys NewViewRegistry,
          Some (ErrNonExistingView (dbName key) (viewName key))).
Proof.
  apply (proj1 (DeleteList_atomic (registerKeys NewViewRegistry)
                  (viewKeys ++ [mkViewKey "random" "random"]))).
  exists (mkViewKey "random" "random"). split.
  - simpl. auto.
  - vm_compute. reflexivity.
Defined.

(** The registry tests of the sources, run on the model. *)
Example TestDeletePartiallyExistingList_true :
  length (AllViews (fst (DeleteList (registerKeys NewViewRegistry)
                           (viewKeys ++ [mkViewKey "random" "random"]) true)))
  = length viewKeys
  /\ snd (DeleteList (registerKeys NewViewRegistry)
            (viewKeys ++ [mkViewKey "random" "random"]) true)
     = Some (ErrNonExistingView "random" "random").
Proof. split; vm_compute; reflexivity. Qed.

Example TestDeletePartiallyExistingList_false :
  DeleteList (registerKeys NewViewRegistry)
    (viewKeys ++ [mkViewKey "random" "random"]) false
  = (NewViewRegistry, None).
Proof. vm_compute. reflexivity. Qed.

Example TestDeleteExistingList :
  DeleteList (registerKeys NewViewRegistry) viewKeys true
  = (NewViewRegistry, None)
  /\ DeleteList (registerKeys NewViewRegistry) viewKeys false
     = (NewViewRegistry, None).
Proof. split; vm_compute; reflexivity. Qed.

Example TestDeleteNonExistingList :
  DeleteList (registerKeys NewViewRegistry) [mkViewKey "random" "random"] true
  = (registerKeys NewViewRegistry,
     Some (ErrNonExistingView "random" "random"))
  /\ DeleteList (registerKeys NewViewRegistry)
       [mkViewKey "random" "random"] false
     = (registerKeys NewViewRegistry, None).
Proof. split; vm_compute; reflexivity. Qed.

(** Registering the mock view in an empty registry and looking it up. *)
Lemma ViewRegistry_lifecycle_witness :
  View_ (fst (Register NewViewRegistry "db" mockView)) "db" "myview"
  = Ok mockView
  /\ Register (fst (Register NewViewRegistry "db" mockView)) "db" mockView
     = (fst (Register NewViewRegistry "db" mockView),
        Some (ErrExistingView "db" "myview")).
Proof.
  exact (proj1 (proj2 (proj2 (proj2 (proj2 (proj2 (proj2
           (ViewRegistry_lifecycle NewViewRegistry "db" "myview" mockView)))))))
           eq_refl).
Defined.

Example TestDeleteExistingView :
  Delete (fst (Register NewViewRegistry "db" mockView)) "db" "myview"
  = (NewViewRegistry, None).
Proof. vm_compute. reflexivity. Qed.

Example TestDeleteNonExistingView :
  Delete NewViewRegistry "random" "randomer"
  = (NewViewRegistry, Some (ErrNonExistingView "random" "randomer")).
Proof. reflexivity. Qed.

Example TestGetNonExistingView :
  View_ NewViewRegistry "db" "myview" = Err (ErrNonExistingView "db" "myview").
Proof. reflexivity. Qed.

Example TestViewsInDatabase :
  length (ViewsInDatabase (registerKeys NewViewRegistry) "db1") = 2
  /\ length (ViewsInDatabase (registerKeys NewViewRegistry) "db2") = 1
  /\ length (ViewsInDatabase (registerKeys NewViewRegistry) "db0") = 0
  /\ length (AllViews (registerKeys NewViewRegistry)) = length viewKeys.
Proof. repeat split; vm_compute; reflexivity. Qed.

Example TestExists :
  Exists (fst (Register NewViewRegistry "db" mockView)) "db" "myview" = true
  /\ Exists (fst (Register NewViewRegistry "db" mockView)) "non" "existing"
     = false.
Proof. split; vm_compute; reflexivity. Qed.

End viewregistry_facts.

(** ** The SET node *)

Module setnode_facts.

Import setnode gostrings.

Section SetNode.

Variable ToLower : string -> string.

Lemma Session_Get_Set (s : Session) (x : string) (t : SqlType) (v : Value) :
  Session_Get ToLower (Session_Set ToLower s x t v) x = (t, v).
Proof. unfold Session_Get, Session_Set. now rewrite lookup_insert_eq. Qed.

Lemma Session_Get_Set_other (s : Session) (x y : string) (t : SqlType)
    (v : Value) :
  ToLower y <> ToLower x ->
  Session_Get ToLower (Session_Set ToLower s y t v) x = Session_Get ToLower s x.
Proof.
  intros H. unfold Session_Get, Session_Set. now rewrite lookup_insert_ne.
Qed.

Variable DefaultSessionConfig : gmap string TypedValue.

Lemma setOne_leaves (x : string) (e : Expression) (s s' : Session) :
  leaves ToLower x e -> setOne ToLower DefaultSessionConfig s e = Ok s' ->
  Session_Get ToLower s' x = Session_Get ToLower s x.
Proof.
  intros Hl. unfold setOne.
  destruct e as [| | | | |lhs rhs| |]; try discriminate.
  destruct (varName lhs) as [y|] eqn:Ey; [| discriminate].
  specialize (Hl lhs rhs y eq_refl Ey).
  destruct rhs; try discriminate.
  - intros H. injection H as <-. now apply Session_Get_Set_other.
  - destruct (DefaultSessionConfig !! ToLower y) as [[t v]|].
    + intros H. injection H as <-. now apply Session_Get_Set_other.
    + intros H. now injection H as <-.
Qed.

Lemma RowIter_leaves (x : string) (Exprs : list Expression) :
  forall s s' : Session,
    Forall (leaves ToLower x) Exprs ->
    RowIter ToLower DefaultSessionConfig Exprs s = Ok s' ->
    Session_Get ToLower s' x = Session_Get ToLower s x.
Proof.
  induction Exprs as [|e rest IH]; intros s s' Hall; simpl.
  - intros H. now injection H as <-.
  - inversion Hall as [|? ? He Hrest]; subst.
    destruct (setOne ToLower DefaultSessionConfig s e) as [s1|] eqn:E1; simpl;
      [| discriminate].
    intros H. rewrite (IH s1 s' Hrest H). exact (setOne_leaves x e s s1 He E1).
Qed.

Lemma RowIter_app (pre post : list Expression) :
  forall s : Session,
    RowIter ToLower DefaultSessionConfig (pre ++ post) s =
    sql.bind (RowIter ToLower DefaultSessionConfig pre s)
      (RowIter ToLower DefaultSessionConfig post).
Proof.
  induction pre as [|e pre IH]; intros s; simpl; [reflexivity |].
  destruct (setOne ToLower DefaultSessionConfig s e); simpl; [apply IH |
      reflexivity].
Qed.

(** What the session reads for [x] once a SET whose last assignment to [x]
    stores the pair [tv] has run. *)
Lemma RowIter_last_assignment (pre post : list Expression) (e : Expression)
    (x : string) (tv : TypedValue) (s s' : Session) :
  (forall s0, setOne ToLower DefaultSessionConfig s0 e
              = Ok (Session_Set ToLower s0 x (fst tv) (snd tv))) ->
  Forall (leaves ToLower x) post ->
  RowIter ToLower DefaultSessionConfig (pre ++ e :: post) s = Ok s' ->
  Session_Get ToLower s' x = tv.
Proof.
  intros He Hpost. rewrite RowIter_app.
  destruct (RowIter ToLower DefaultSessionConfig pre s) as [s1|]; simpl;
    [| discriminate].
  rewrite He. simpl. intros H.
  rewrite (RowIter_leaves x post _ s' Hpost H), Session_Get_Set.
  now destruct tv.
Qed.

(** C7: a SET of one variable to a literal succeeds, and the session then
    reads the literal's type and value for that variable; a SET of one
    variable to DEFAULT, for a variable the default table has an entry
    for, succeeds, and the session then reads the table's type and value.
    In a SET of several assignments that runs to the end, the same holds
    for the last assignment made to the variable. *)
Theorem Set_then_Get :
  (forall lhs x v t (s : Session),
     varName lhs = Some x ->
     exists s',
       RowIter ToLower DefaultSessionConfig [SetField lhs (Literal v t)] s = Ok
           s'
       /\ Session_Get ToLower s' x = (t, v))
  /\ (forall lhs x d tv (s : Session),
        varName lhs = Some x ->
        DefaultSessionConfig !! ToLower x = Some tv ->
        exists s',
          RowIter ToLower DefaultSessionConfig [SetField lhs (DefaultColumn d)]
              s
          = Ok s'
          /\ Session_Get ToLower s' x = tv)
  /\ (forall pre post lhs x v t (s s' : Session),
        varName lhs = Some x -> Forall (leaves ToLower x) post ->
        RowIter ToLower DefaultSessionConfig
          (pre ++ SetField lhs (Literal v t) :: post) s = Ok s' ->
        Session_Get ToLower s' x = (t, v))
  /\ (forall pre post lhs x d tv (s s' : Session),
        varName lhs = Some x ->
        DefaultSessionConfig !! ToLower x = Some tv ->
        Forall (leaves ToLower x) post ->
        RowIter ToLower DefaultSessionConfig
          (pre ++ SetField lhs (DefaultColumn d) :: post) s = Ok s' ->
        Session_Get ToLower s' x = tv).
Proof.
  split; [| split; [| split]].
  - intros lhs x v t s Hx. exists (Session_Set ToLower s x t v).
    split; [| apply Session_Get_Set].
    cbn [RowIter setOne]. now rewrite Hx.
  - intros lhs x d [t v] s Hx Hd. exists (Session_Set ToLower s x t v).
    split; [| apply Session_Get_Set].
    cbn [RowIter setOne]. rewrite Hx. cbn beta iota. now rewrite Hd.
  - intros pre post lhs x v t s s' Hx Hpost.
    apply (RowIter_last_assignment pre post _ x (t, v)); [| exact Hpost].
    intros s0. cbn [setOne]. now rewrite Hx.
  - intros pre post lhs x d [t v] s s' Hx Hd Hpost.
    apply (RowIter_last_assignment pre post _ x (t, v)); [| exact Hpost].
    intros s0. cbn [setOne]. rewrite Hx. cbn beta iota. now rewrite Hd.
Qed.

End SetNode.

(** [SET @@baz = 1] on a fresh session, then reading [baz]. *)
Lemma Set_then_Get_witness :
  exists s',
    RowIter asciiToLower sampleDefaults
      [SetField (UnresolvedColumn "@@baz") (Literal (VInt 1) Int64)]
      (NewBaseSession sampleDefaults) = Ok s'
    /\ Session_Get asciiToLower s' "baz" = (Int64, VInt 1).
Proof.
  exact (proj1 (Set_then_Get asciiToLower sampleDefaults)
           (UnresolvedColumn "@@baz") "baz" (VInt 1) Int64
           (NewBaseSession sampleDefaults) eq_refl).
Defined.

(** The two tests of set_test.go, run on the model. *)
Example TestSet :
  exists s',
    RowIter asciiToLower sampleDefaults testSet (NewBaseSession sampleDefaults)
        = Ok s'
    /\ Session_Get asciiToLower s' "foo" = (LongText, VString "bar")
    /\ Session_Get asciiToLower s' "baz" = (Int64, VInt 1).
Proof. eexists. repeat split; vm_compute; reflexivity. Qed.

Example TestSetDefault :
  exists s1 s2,
    RowIter asciiToLower sampleDefaults testSetValues (NewBaseSession
        sampleDefaults)
    = Ok s1
    /\ Session_Get asciiToLower s1 "auto_increment_increment" = (Int64, VInt
        123)
    /\ Session_Get asciiToLower s1 "sql_select_limit" = (Int64, VInt 1)
    /\ RowIter asciiToLower sampleDefaults testSetDefaults s1 = Ok s2
    /\ Some (Session_Get asciiToLower s2 "auto_increment_increment")
       = sampleDefaults !! "auto_increment_increment"
    /\ Some (Session_Get asciiToLower s2 "sql_select_limit")
       = sampleDefaults !! "sql_select_limit".
Proof. do 2 eexists. repeat split; vm_compute; reflexivity. Qed.

End setnode_facts.

(** ** More on star expansion *)

Module analyzer_more.

Import plan analyzer contract analyzer_facts gostrings.

Section Expansion.

Variable ToLower : string -> string.

Lemma firstMissingTable_star_free (schema : Schema)
    (exprs : list Expression) :
  (forall Table, ~ In (Star Table) exprs) ->
  firstMissingTable ToLower schema exprs = None.
Proof.
  intros H. apply firstMissingTable_None. intros T Hin. now destruct (H T).
Qed.

Lemma flat_map_expandOne_star_free (schema : Schema)
    (exprs : list Expression) :
  (forall Table, ~ In (Star Table) exprs) ->
  flat_map (expandOne ToLower schema) exprs = exprs.
Proof.
  induction exprs as [|e rest IH]; intros H; [reflexivity |].
  cbn [flat_map]. rewrite IH by (intros T Hin; apply (H T); now right).
  rewrite expandOne_not_star; [reflexivity |].
  intros T ->. apply (H T). now left.
Qed.

Lemma expand_star_free {TableAliases : Type} (exprs : list Expression)
    (schema : Schema) (ta : TableAliases) :
  (forall Table, ~ In (Star Table) exprs) ->
  expandStarsForExpressions ToLower exprs schema ta = Ok exprs.
Proof.
  intros H. rewrite expandStarsForExpressions_spec.
  rewrite firstMissingTable_star_free by exact H.
  now rewrite flat_map_expandOne_star_free.
Qed.

Lemma expansion_star_free (schema : Schema) (exprs : list Expression) :
  forall Table, ~ In (Star Table) (flat_map (expandOne ToLower schema) exprs).
Proof.
  intros T Hin. apply in_flat_map in Hin as (x & _ & Hin).
  destruct x; simpl in Hin;
    try (destruct Hin as [H | []]; discriminate).
  apply starColumns_In in Hin as (i & col & _ & _ & H). discriminate.
Qed.

(** X1: a projection list without wildcard is returned as it is, whatever
    the child schema; the expansion cannot fail on it. *)
Theorem expandStarsForExpressions_without_wildcard {TableAliases : Type}
    (exprs : list Expression) (schema : Schema) (ta : TableAliases) :
  (forall Table, ~ In (Star Table) exprs) ->
  expandStarsForExpressions ToLower exprs schema ta = Ok exprs.
Proof. apply expand_star_free. Qed.

(** X2: the result of a successful expansion contains no wildcard, and
    expanding it again, over any schema, returns it unchanged. *)
Theorem expandStarsForExpressions_eliminates_wildcards
    {TableAliases TableAliases' : Type} (exprs : list Expression)
    (schema : Schema) (ta : TableAliases) (out : list Expression) :
  expandStarsForExpressions ToLower exprs schema ta = Ok out ->
  (forall Table, ~ In (Star Table) out)
  /\ (forall (schema' : Schema) (ta' : TableAliases'),
        expandStarsForExpressions ToLower out schema' ta' = Ok out).
Proof.
  intros Hok. rewrite expandStarsForExpressions_spec in Hok.
  destruct (firstMissingTable ToLower schema exprs); [discriminate |].
  injection Hok as <-.
  split; [apply expansion_star_free |].
  intros schema' ta'. apply expand_star_free, expansion_star_free.
Qed.

Lemma firstMissingTable_app (schema : Schema) (a b : list Expression) :
  firstMissingTable ToLower schema (a ++ b) =
  match firstMissingTable ToLower schema a with
  | Some Table => Some Table
  | None => firstMissingTable ToLower schema b
  end.
Proof.
  induction a as [|e a IH]; simpl; [reflexivity |].
  now destruct (missingTable ToLower schema e).
Qed.

(** X3: expanding the concatenation of two projection lists is expanding
    the first, then the second, and concatenating the results; an error of
    the first list wins over an error of the second. *)
Theorem expandStarsForExpressions_app {TableAliases : Type}
    (a b : list Expression) (schema : Schema) (ta : TableAliases) :
  expandStarsForExpressions ToLower (a ++ b) schema ta =
  sql.bind (expandStarsForExpressions ToLower a schema ta) (fun a' =>
  sql.bind (expandStarsForExpressions ToLower b schema ta) (fun b' =>
  Ok (a' ++ b'))).
Proof.
  rewrite !expandStarsForExpressions_spec, firstMissingTable_app.
  destruct (firstMissingTable ToLower schema a); simpl; [reflexivity |].
  destruct (firstMissingTable ToLower schema b); simpl; [reflexivity |].
  now rewrite flat_map_app.
Qed.

Lemma fieldIndices_fieldRef (l : list (nat * Column)) :
  fieldIndices (List.map fieldRef l) = List.map fst l.
Proof.
  induction l as [|ic l IH]; simpl; [reflexivity |]. now rewrite <- IH.
Qed.

(** The positions kept by a filter are increasing and within the part of
    the schema that was numbered. *)
Lemma filter_positions_sorted (p : nat * Column -> bool) (schema : Schema) :
  forall k : nat,
    StronglySorted lt
      (List.map fst (List.filter p (combine (seq k (length schema)) schema)))
    /\ Forall (fun i => k <= i < k + length schema)
         (List.map fst
            (List.filter p (combine (seq k (length schema)) schema))).
Proof.
  induction schema as [|col rest IH]; intros k; simpl.
  - split; constructor.
  - destruct (IH (S k)) as [Hs Hb].
    assert (Forall (fun i => k <= i < k + S (length rest))
              (List.map fst
                 (List.filter p (combine (seq (S k) (length rest)) rest))))
      as Hb'.
    { eapply List.Forall_impl; [| exact Hb]. simpl. intros i Hi. lia. }
    destruct (p (k, col)); simpl.
    + split.
      * constructor; [exact Hs |].
        eapply List.Forall_impl; [| exact Hb]. simpl. intros i Hi. lia.
      * constructor; [lia | exact Hb'].
    + split; [exact Hs | exact Hb'].
Qed.

Lemma positions_lookup (schema : Schema) :
  forall k i : nat,
    List.map fieldRef (combine (seq k (length schema)) schema) !! i
    = (fun col => fieldRef (k + i, col)) <$> schema !! i.
Proof.
  induction schema as [|col rest IH]; intros k i; simpl; [reflexivity |].
  destruct i as [|i]; simpl.
  - now rewrite Nat.add_0_r.
  - rewrite IH. now replace (S k + i) with (k + S i) by lia.
Qed.

Lemma starColumns_length (Table : string) (schema : Schema) :
  length (starColumns ToLower Table schema) <= length schema.
Proof.
  unfold starColumns, positions. rewrite length_map.
  etransitivity; [apply filter_length_le |].
  rewrite length_combine, length_seq. lia.
Qed.

Lemma expand_single_star {TableAliases : Type} (Table : string)
    (schema : Schema) (ta : TableAliases) (out : list Expression) :
  expandStarsForExpressions ToLower [Star Table] schema ta = Ok out ->
  out = starColumns ToLower Table schema.
Proof.
  rewrite expandStarsForExpressions_spec.
  destruct (firstMissingTable ToLower schema [Star Table]); [discriminate |].
  simpl. rewrite app_nil_r. intros H. now injection H as <-.
Qed.

(** X4: the references generated for one wildcard carry strictly
    increasing indices, each below the number of columns of the child
    schema; so there are at most as many references as columns. *)
Theorem expandStarsForExpressions_star_indices_increase
    {TableAliases : Type} (Table : string) (schema : Schema)
    (ta : TableAliases) (out : list Expression) :
  expandStarsForExpressions ToLower [Star Table] schema ta = Ok out ->
  StronglySorted lt (fieldIndices out)
  /\ Forall (fun i => i < length schema) (fieldIndices out)
  /\ length (fieldIndices out) = length out
  /\ length out <= length schema.
Proof.
  intros Hok. apply expand_single_star in Hok as ->.
  unfold starColumns at 1 2 3 4, positions.
  rewrite fieldIndices_fieldRef.
  destruct (filter_positions_sorted
              (fun ic => starSelects ToLower Table (snd ic)) schema 0) as [Hs
                  Hb].
  split; [exact Hs |]. split.
  - eapply List.Forall_impl; [| exact Hb]. simpl. intros i Hi. lia.
  - split; [now rewrite !length_map |].
    apply (starColumns_length Table schema).
Qed.

(** X5: an unqualified wildcard never fails; its expansion has exactly one
    reference per column, and the reference at position [i] is the one to
    the column at position [i], with index [i]. *)
Theorem expandStarsForExpressions_unqualified_star {TableAliases : Type}
    (schema : Schema) (ta : TableAliases) :
  exists out,
    expandStarsForExpressions ToLower [Star ""] schema ta = Ok out
    /\ length out = length schema
    /\ forall i,
         out !! i
         = (fun col =>
              GetField i (Typ col) (Source col) (Name col) (Nullable col))
           <$> schema !! i.
Proof.
  exists (List.map fieldRef (positions schema)). split.
  - rewrite expandStarsForExpressions_spec.
    assert (firstMissingTable ToLower schema [Star ""] = None) as ->
      by reflexivity.
    simpl. now rewrite app_nil_r, starColumns_unqualified.
  - split.
    + unfold positions. rewrite length_map, length_combine, length_seq. lia.
    + intros i. unfold positions. now rewrite positions_lookup.
Qed.

Lemma eqb_empty_same (Table Table' : string) :
  (Table = "" <-> Table' = "") ->
  String.eqb Table "" = String.eqb Table' "".
Proof.
  intros H.
  destruct (String.eqb_spec Table ""), (String.eqb_spec Table' "");
    tauto.
Qed.

Lemma starSelects_same_lower (Table Table' : string) (col : Column) :
  ToLower Table = ToLower Table' ->
  (Table = "" <-> Table' = "") ->
  starSelects ToLower Table col = starSelects ToLower Table' col.
Proof.
  intros H He. unfold starSelects. rewrite H. f_equal.
  now apply eqb_empty_same.
Qed.

(** X6: two wildcards whose qualifiers are equal after [strings.ToLower],
    and are both empty or both not, behave alike over every schema:
    either both expand to the same references, or both fail, each error
    naming its own qualifier as written. *)
Theorem expandStarsForExpressions_qualifier_case {TableAliases : Type}
    (Table Table' : string) (schema : Schema) (ta : TableAliases) :
  ToLower Table = ToLower Table' ->
  (Table = "" <-> Table' = "") ->
  (forall out,
     expandStarsForExpressions ToLower [Star Table] schema ta = Ok out <->
     expandStarsForExpressions ToLower [Star Table'] schema ta = Ok out)
  /\ (expandStarsForExpressions ToLower [Star Table] schema ta
      = Err (ErrTableNotFound Table) <->
      expandStarsForExpressions ToLower [Star Table'] schema ta
      = Err (ErrTableNotFound Table')).
Proof.
  intros H He.
  assert (starColumns ToLower Table schema = starColumns ToLower Table' schema)
    as Hc.
  { unfold starColumns. f_equal. apply filter_ext.
    intros ic. now apply starSelects_same_lower. }
  assert (match missingTable ToLower schema (Star Table) with
          | Some _ => true | None => false end
          = match missingTable ToLower schema (Star Table') with
            | Some _ => true | None => false end) as Hm.
  { rewrite <- !line70_missingTable, !starLoop_starColumns, Hc. f_equal.
    f_equal. now apply eqb_empty_same. }
  rewrite !expandStarsForExpressions_spec. cbn [firstMissingTable flat_map
    expandOne]. rewrite !app_nil_r, Hc.
  destruct (missingTable ToLower schema (Star Table)) as [T|] eqn:E;
    destruct (missingTable ToLower schema (Star Table')) as [T'|] eqn:E';
    try discriminate.
  - apply missingTable_Some in E as [E _], E' as [E' _].
    injection E as <-. injection E' as <-.
    split; [intros out; split; discriminate | tauto].
  - split; [tauto | split; discriminate].
Qed.

End Expansion.

Lemma expandStarsForExpressions_without_wildcard_witness :
  expandStarsForExpressions asciiToLower
    [UnresolvedColumn "x"; GetField 7 Int64 "t" "a" false] schema_t_ab tt
  = Ok [UnresolvedColumn "x"; GetField 7 Int64 "t" "a" false].
Proof.
  apply (expandStarsForExpressions_without_wildcard asciiToLower
           [UnresolvedColumn "x"; GetField 7 Int64 "t" "a" false]
           schema_t_ab tt).
  intros T [H | [H | []]]; discriminate.
Defined.

Lemma expandStarsForExpressions_eliminates_wildcards_witness :
  (forall Table,
     ~ In (Star Table)
         [GetField 0 Int64 "t" "a" false; GetField 1 LongText "t" "b" true])
  /\ (forall (schema' : Schema) (ta' : unit),
        expandStarsForExpressions asciiToLower
          [GetField 0 Int64 "t" "a" false; GetField 1 LongText "t" "b" true]
          schema' ta'
        = Ok [GetField 0 Int64 "t" "a" false;
              GetField 1 LongText "t" "b" true]).
Proof.
  exact (expandStarsForExpressions_eliminates_wildcards asciiToLower
           [Star ""] schema_t_ab tt
           [GetField 0 Int64 "t" "a" false; GetField 1 LongText "t" "b" true]
           eq_refl).
Defined.

Lemma expandStarsForExpressions_star_indices_increase_witness :
  StronglySorted lt
    (fieldIndices
       [GetField 0 Int64 "t" "a" false; GetField 1 LongText "t" "b" true])
  /\ Forall (fun i => i < length schema_t_ab)
       (fieldIndices
          [GetField 0 Int64 "t" "a" false; GetField 1 LongText "t" "b" true])
  /\ length
       (fieldIndices
          [GetField 0 Int64 "t" "a" false; GetField 1 LongText "t" "b" true])
     = length
         [GetField 0 Int64 "t" "a" false; GetField 1 LongText "t" "b" true]
  /\ length
       [GetField 0 Int64 "t" "a" false; GetField 1 LongText "t" "b" true]
     <= length schema_t_ab.
Proof.
  exact (expandStarsForExpressions_star_indices_increase asciiToLower
           "T" schema_t_ab tt
           [GetField 0 Int64 "t" "a" false; GetField 1 LongText "t" "b" true]
           eq_refl).
Defined.

Lemma expandStarsForExpressions_qualifier_case_witness :
  expandStarsForExpressions asciiToLower [Star "T"] schema_u_a_t_b tt
  = Ok [GetField 1 LongText "t" "b" true].
Proof.
  assert ("t" = "" <-> "T" = "") as Hboth by (split; discriminate).
  apply (proj1 (expandStarsForExpressions_qualifier_case
                  asciiToLower "t" "T" schema_u_a_t_b tt eq_refl
                  Hboth)
           [GetField 1 LongText "t" "b" true]).
  reflexivity.
Defined.

End analyzer_more.

(** ** More on the rule [expandStars] *)

Module expandStars_more.

Import plan analyzer contract analyzer_facts analyzer_more expandStars_facts
    gostrings.

Section Rule.

Variable ToLower : string -> string.
Context {TableAliases Scope : Type}.
Variable getTableAliases : Node -> Scope -> result TableAliases.
Variable Node_Schema : Node -> Schema.

(** What the function applied to each node can return. *)
Lemma expandStarsNode_cases (ta : TableAliases) (n : Node) :
  expandStarsNode ToLower Node_Schema ta n = Ok n
  \/ (exists ps c,
        n = Project ps c /\ Resolved c = true
        /\ expandStarsNode ToLower Node_Schema ta n
           = sql.bind (expandStarsForExpressions ToLower ps (Node_Schema c) ta)
               (fun ps' => Ok (Project ps' c)))
  \/ (exists ss gs c,
        n = GroupBy ss gs c /\ Resolved c = true
        /\ expandStarsNode ToLower Node_Schema ta n
           = sql.bind (expandStarsForExpressions ToLower ss (Node_Schema c) ta)
               (fun ss' => Ok (GroupBy ss' gs c))).
Proof.
  unfold expandStarsNode. destruct (Resolved n) eqn:Hn; [now left |].
  destruct n as [name schema | name | ps c | ss gs c | tag es cs];
    try (now left).
  - destruct (Resolved c) eqn:Hc; [| now left].
    right. left. exists ps, c. auto.
  - destruct (Resolved c) eqn:Hc; [| now left].
    right. right. exists ss, gs, c. auto.
Qed.

Lemma expandStarsNode_sameChildren (ta : TableAliases) (n n' : Node) :
  expandStarsNode ToLower Node_Schema ta n = Ok n' -> sameChildren n n'.
Proof.
  assert (sameChildren n n) as Hrefl.
  { destruct n; simpl; auto. }
  destruct (expandStarsNode_cases ta n)
    as [-> | [(ps & c & -> & _ & ->) | (ss & gs & c & -> & _ & ->)]].
  - intros H. now injection H as <-.
  - destruct (expandStarsForExpressions ToLower ps (Node_Schema c) ta); simpl;
      [| discriminate].
    intros H. injection H as <-. reflexivity.
  - destruct (expandStarsForExpressions ToLower ss (Node_Schema c) ta); simpl;
      [| discriminate].
    intros H. injection H as <-. simpl. auto.
Qed.

Lemma expandStarsNode_again (ta ta' : TableAliases) (n n' : Node) :
  expandStarsNode ToLower Node_Schema ta n = Ok n' ->
  expandStarsNode ToLower Node_Schema ta' n' = Ok n'.
Proof.
  unfold expandStarsNode at 1. destruct (Resolved n) eqn:Hn.
  { intros H. injection H as <-. unfold expandStarsNode. now rewrite Hn. }
  destruct n as [name schema | name | ps c | ss gs c | tag es cs];
    try (intros H; injection H as <-; unfold expandStarsNode;
         now rewrite Hn).
  - destruct (Resolved c) eqn:Hc; simpl.
    + destruct (expandStarsForExpressions ToLower ps (Node_Schema c) ta)
        as [ps'|] eqn:E; simpl; [| discriminate].
      intros H. injection H as <-. unfold expandStarsNode, NewProject.
      destruct (Resolved (Project ps' c)); [reflexivity |].
      rewrite Hc. simpl.
      rewrite expandStarsForExpressions_spec in E.
      destruct (firstMissingTable ToLower (Node_Schema c) ps); [discriminate |].
      injection E as <-.
      now rewrite (expand_star_free ToLower _ (Node_Schema c) ta'
                     (expansion_star_free ToLower (Node_Schema c) ps)).
    + intros H. injection H as <-. unfold expandStarsNode.
      now rewrite Hn, Hc.
  - destruct (Resolved c) eqn:Hc; simpl.
    + destruct (expandStarsForExpressions ToLower ss (Node_Schema c) ta)
        as [ss'|] eqn:E; simpl; [| discriminate].
      intros H. injection H as <-. unfold expandStarsNode, NewGroupBy.
      destruct (Resolved (GroupBy ss' gs c)); [reflexivity |].
      rewrite Hc. simpl.
      rewrite expandStarsForExpressions_spec in E.
      destruct (firstMissingTable ToLower (Node_Schema c) ss); [discriminate |].
      injection E as <-.
      now rewrite (expand_star_free ToLower _ (Node_Schema c) ta'
                     (expansion_star_free ToLower (Node_Schema c) ss)).
    + intros H. injection H as <-. unfold expandStarsNode.
      now rewrite Hn, Hc.
Qed.

(** X7: when the function applied to each node succeeds, the node it
    returns is the same operator over the same child, with the same
    group-by expressions: only the projection list of a Project, or the
    selected expressions of a GroupBy, can differ, and then they are the
    expansion of the original list over the child's schema.  When it
    fails, the node is a Project or GroupBy over a resolved child and the
    error is that of the expansion of its list. *)
Theorem expandStarsNode_touches_only_projections (ta : TableAliases)
    (n : Node) :
  (forall n',
     expandStarsNode ToLower Node_Schema ta n = Ok n' ->
     sameChildren n n'
     /\ (n' = n
         \/ (exists ps ps' c,
               n = Project ps c /\ n' = Project ps' c
               /\ expandStarsForExpressions ToLower ps (Node_Schema c) ta = Ok
                   ps')
         \/ (exists ss ss' gs c,
               n = GroupBy ss gs c /\ n' = GroupBy ss' gs c
               /\ expandStarsForExpressions ToLower ss (Node_Schema c) ta = Ok
                   ss')))
  /\ (forall err,
        expandStarsNode ToLower Node_Schema ta n = Err err ->
        exists exprs c,
          (n = Project exprs c \/ exists gs, n = GroupBy exprs gs c)
          /\ Resolved c = true
          /\ expandStarsForExpressions ToLower exprs (Node_Schema c) ta = Err
              err).
Proof.
  split.
  - intros n' H. split; [exact (expandStarsNode_sameChildren ta n n' H) |].
    destruct (expandStarsNode_cases ta n)
      as [E | [(ps & c & -> & _ & E) | (ss & gs & c & -> & _ & E)]];
      rewrite E in H.
    + left. now injection H as <-.
    + destruct (expandStarsForExpressions ToLower ps (Node_Schema c) ta) as
        [ps'|]
        eqn:Ex; simpl in H; [| discriminate].
      injection H as <-. right. left. exists ps, ps', c. auto.
    + destruct (expandStarsForExpressions ToLower ss (Node_Schema c) ta) as
        [ss'|]
        eqn:Ex; simpl in H; [| discriminate].
      injection H as <-. right. right. exists ss, ss', gs, c. auto.
  - intros err H.
    destruct (expandStarsNode_cases ta n)
      as [E | [(ps & c & -> & Hc & E) | (ss & gs & c & -> & Hc & E)]];
      rewrite E in H.
    + discriminate.
    + destruct (expandStarsForExpressions ToLower ps (Node_Schema c) ta) as
        [ps'|]
        eqn:Ex; simpl in H; [discriminate |].
      injection H as <-. exists ps, c. eauto.
    + destruct (expandStarsForExpressions ToLower ss (Node_Schema c) ta) as
        [ss'|]
        eqn:Ex; simpl in H; [discriminate |].
      injection H as <-. exists ss, c. eauto.
Qed.

(** X8: the function applied to each node is idempotent on every node,
    resolved or not: applied to a node it returned, with any alias map, it
    returns that node again. *)
Theorem expandStarsNode_idempotent (ta ta' : TableAliases) (n n' : Node) :
  expandStarsNode ToLower Node_Schema ta n = Ok n' ->
  expandStarsNode ToLower Node_Schema ta' n' = Ok n'.
Proof. apply expandStarsNode_again. Qed.

(** A bottom-up transformation by [f] followed by one by [g] changes
    nothing more, when [g] returns unchanged what [f] returned and [f]
    keeps operators and children. *)
Lemma TransformUp_again (f g : Node -> result Node) :
  (forall m m', f m = Ok m' -> sameChildren m m' /\ g m' = Ok m') ->
  forall n n', TransformUp n f = Ok n' -> TransformUp n' g = Ok n'.
Proof.
  intros Hfg n.
  induction n as [name schema | name | ps c IH | ss gs c IH | tag es cs IH]
    using Node_nested_ind; intros n' H.
  - simpl in H. destruct (Hfg _ _ H) as [Hs Hg].
    destruct n'; try contradiction. exact Hg.
  - simpl in H. destruct (Hfg _ _ H) as [Hs Hg].
    destruct n'; try contradiction. exact Hg.
  - simpl in H. destruct (TransformUp c f) as [c'|] eqn:Ec; simpl in H;
      [| discriminate].
    destruct (Hfg _ _ H) as [Hs Hg].
    destruct n' as [| | ps' c'' | |]; try contradiction. simpl in Hs.
    subst c''. simpl. rewrite (IH c' eq_refl). simpl. exact Hg.
  - simpl in H. destruct (TransformUp c f) as [c'|] eqn:Ec; simpl in H;
      [| discriminate].
    destruct (Hfg _ _ H) as [Hs Hg].
    destruct n' as [| | | ss' gs' c'' |]; try contradiction. simpl in Hs.
    destruct Hs as [_ <-]. simpl. rewrite (IH c' eq_refl). simpl. exact Hg.
  - simpl in H.
    match type of H with
    | sql.bind ?t _ = _ => destruct t as [cs'|] eqn:Ecs
    end; simpl in H; [| discriminate].
    destruct (Hfg _ _ H) as [Hs Hg].
    destruct n' as [| | | | tag' es' cs'']; try contradiction. simpl in Hs.
    destruct Hs as (<- & <- & <-). simpl.
    match goal with
    | |- sql.bind ?t _ = _ => assert (t = Ok cs') as ->
    end; [| exact Hg].
    clear H Hg. revert cs' Ecs.
    induction cs as [|c cs IHcs]; intros cs' Ecs.
    + injection Ecs as <-. reflexivity.
    + inversion IH as [|? ? IHc IHrest]; subst.
      destruct (TransformUp c f) as [c'|] eqn:Ec; simpl in Ecs;
        [| discriminate].
      match type of Ecs with
      | sql.bind ?t _ = _ => destruct t as [rest'|] eqn:Er
      end; simpl in Ecs; [| discriminate].
      injection Ecs as <-.
      rewrite (IHc c' eq_refl). simpl.
      rewrite (IHcs IHrest rest' eq_refl). reflexivity.
Qed.

(** X9: the rule is idempotent on every tree, resolved or not: applied to
    a tree it returned, it returns that tree again, provided the alias map
    of that tree can be collected. *)
Theorem expandStars_idempotent (n n' : Node) (scope : Scope)
    (ta' : TableAliases) :
  expandStars ToLower getTableAliases Node_Schema n scope = Ok n' ->
  getTableAliases n' scope = Ok ta' ->
  expandStars ToLower getTableAliases Node_Schema n' scope = Ok n'.
Proof.
  unfold expandStars. intros H Hta'. rewrite Hta'. simpl.
  destruct (getTableAliases n scope) as [ta|]; simpl in H; [| discriminate].
  apply (TransformUp_again (expandStarsNode ToLower Node_Schema ta)
           (expandStarsNode ToLower Node_Schema ta')) with (n := n); [| exact
               H].
  intros m m' Hm. split.
  - exact (expandStarsNode_sameChildren ta m m' Hm).
  - exact (expandStarsNode_again ta ta' m m' Hm).
Qed.

Lemma resolved_star_free (exprs : list Expression) :
  forallb expression.Resolved exprs = true ->
  forall Table, ~ In (Star Table) exprs.
Proof.
  intros H T Hin. rewrite forallb_forall in H. specialize (H _ Hin).
  discriminate.
Qed.

Lemma expandStarsNode_expandedHere (ta : TableAliases) (n n' : Node) :
  expandStarsNode ToLower Node_Schema ta n = Ok n' -> expandedHere n'.
Proof.
  unfold expandStarsNode. destruct (Resolved n) eqn:Hn.
  { intros H. injection H as <-.
    destruct n as [| | ps c | ss gs c |]; simpl; auto; intros _;
      simpl in Hn; apply resolved_star_free.
    - now apply andb_true_iff in Hn as [_ Hn].
    - apply andb_true_iff in Hn as [Hn _].
      now apply andb_true_iff in Hn as [_ Hn]. }
  destruct n as [| | ps c | ss gs c |];
    try (intros H; injection H as <-; exact I).
  - destruct (Resolved c) eqn:Hc; simpl.
    + rewrite expandStarsForExpressions_spec.
      destruct (firstMissingTable ToLower (Node_Schema c) ps); simpl;
        [discriminate |].
      intros H. injection H as <-. simpl. intros _.
      apply expansion_star_free.
    + intros H. injection H as <-. simpl. congruence.
  - destruct (Resolved c) eqn:Hc; simpl.
    + rewrite expandStarsForExpressions_spec.
      destruct (firstMissingTable ToLower (Node_Schema c) ss); simpl;
        [discriminate |].
      intros H. injection H as <-. simpl. intros _.
      apply expansion_star_free.
    + intros H. injection H as <-. simpl. congruence.
Qed.

(** A bottom-up transformation by a function that keeps operators and
    children and establishes [expandedHere] establishes it everywhere. *)
Lemma TransformUp_expandedEverywhere (f : Node -> result Node) :
  (forall m m', f m = Ok m' -> sameChildren m m' /\ expandedHere m') ->
  forall n n', TransformUp n f = Ok n' -> expandedEverywhere n'.
Proof.
  intros Hf n.
  induction n as [name schema | name | ps c IH | ss gs c IH | tag es cs IH]
    using Node_nested_ind; intros n' H.
  - simpl in H. destruct (Hf _ _ H) as [Hs Hh].
    destruct n'; try contradiction. simpl. auto.
  - simpl in H. destruct (Hf _ _ H) as [Hs Hh].
    destruct n'; try contradiction. simpl. auto.
  - simpl in H. destruct (TransformUp c f) as [c'|] eqn:Ec; simpl in H;
      [| discriminate].
    destruct (Hf _ _ H) as [Hs Hh].
    destruct n' as [| | ps' c'' | |]; try contradiction. simpl in Hs.
    subst c''. split; [exact Hh | exact (IH c' eq_refl)].
  - simpl in H. destruct (TransformUp c f) as [c'|] eqn:Ec; simpl in H;
      [| discriminate].
    destruct (Hf _ _ H) as [Hs Hh].
    destruct n' as [| | | ss' gs' c'' |]; try contradiction. simpl in Hs.
    destruct Hs as [_ <-]. split; [exact Hh | exact (IH c' eq_refl)].
  - simpl in H.
    match type of H with
    | sql.bind ?t _ = _ => destruct t as [cs'|] eqn:Ecs
    end; simpl in H; [| discriminate].
    destruct (Hf _ _ H) as [Hs Hh].
    destruct n' as [| | | | tag' es' cs'']; try contradiction. simpl in Hs.
    destruct Hs as (<- & <- & <-). split; [exact I |].
    clear H Hh. revert cs' Ecs.
    induction cs as [|c cs IHcs]; intros cs' Ecs.
    + injection Ecs as <-. exact I.
    + inversion IH as [|? ? IHc IHrest]; subst.
      destruct (TransformUp c f) as [c'|] eqn:Ec; simpl in Ecs;
        [| discriminate].
      match type of Ecs with
      | sql.bind ?t _ = _ => destruct t as [rest'|] eqn:Er
      end; simpl in Ecs; [| discriminate].
      injection Ecs as <-.
      split; [exact (IHc c' eq_refl) | exact (IHcs IHrest rest' eq_refl)].
Qed.

(** X17: in the tree the rule returns, at every depth, a Project or
    GroupBy node whose child is resolved has no wildcard left in its
    projection list (respectively its selected expressions): wildcards
    remain only above children that are not resolved yet. *)
Theorem expandStars_expands_everywhere (n n' : Node) (scope : Scope) :
  expandStars ToLower getTableAliases Node_Schema n scope = Ok n' ->
  expandedEverywhere n'.
Proof.
  unfold expandStars.
  destruct (getTableAliases n scope) as [ta|]; simpl; [| discriminate].
  apply TransformUp_expandedEverywhere. intros m m' Hm. split.
  - exact (expandStarsNode_sameChildren ta m m' Hm).
  - exact (expandStarsNode_expandedHere ta m m' Hm).
Qed.

End Rule.

Lemma expandStars_expands_everywhere_witness :
  expandedEverywhere
    (OtherNode "Limit" [Literal (VInt 1) Int64]
       [Project [GetField 0 Int64 "t" "a" false;
                 GetField 1 LongText "t" "b" true; UnresolvedColumn "x"]
          (ResolvedTable "t" schema_t_ab)]).
Proof.
  exact (expandStars_expands_everywhere asciiToLower noAliases sampleSchema
           (OtherNode "Limit" [Literal (VInt 1) Int64]
              [Project [Star ""; UnresolvedColumn "x"]
                 (ResolvedTable "t" schema_t_ab)])
           (OtherNode "Limit" [Literal (VInt 1) Int64]
              [Project [GetField 0 Int64 "t" "a" false;
                        GetField 1 LongText "t" "b" true; UnresolvedColumn "x"]
                 (ResolvedTable "t" schema_t_ab)])
           tt eq_refl).
Defined.

Lemma expandStarsNode_touches_only_projections_witness :
  sameChildren
    (GroupBy [Star "t"] [UnresolvedColumn "a"] (ResolvedTable "t" schema_t_ab))
    (GroupBy [GetField 0 Int64 "t" "a" false; GetField 1 LongText "t" "b" true]
       [UnresolvedColumn "a"] (ResolvedTable "t" schema_t_ab)).
Proof.
  exact (proj1 (proj1 (expandStarsNode_touches_only_projections asciiToLower
                         sampleSchema tt
                         (GroupBy [Star "t"] [UnresolvedColumn "a"]
                            (ResolvedTable "t" schema_t_ab)))
                  (GroupBy [GetField 0 Int64 "t" "a" false;
                            GetField 1 LongText "t" "b" true]
                     [UnresolvedColumn "a"] (ResolvedTable "t" schema_t_ab))
                  eq_refl)).
Defined.

Lemma expandStarsNode_idempotent_witness :
  expandStarsNode asciiToLower sampleSchema tt
    (Project [GetField 0 Int64 "t" "a" false; GetField 1 LongText "t" "b" true;
              UnresolvedColumn "x"]
       (ResolvedTable "t" schema_t_ab))
  = Ok (Project [GetField 0 Int64 "t" "a" false;
                 GetField 1 LongText "t" "b" true; UnresolvedColumn "x"]
          (ResolvedTable "t" schema_t_ab)).
Proof.
  exact (expandStarsNode_idempotent asciiToLower sampleSchema tt tt
           (Project [Star "T"; UnresolvedColumn "x"]
              (ResolvedTable "t" schema_t_ab))
           (Project [GetField 0 Int64 "t" "a" false;
                     GetField 1 LongText "t" "b" true; UnresolvedColumn "x"]
              (ResolvedTable "t" schema_t_ab))
           eq_refl).
Defined.

(** A tree with an unresolved column left over: the rule expands the
    wildcard once and then leaves the tree alone. *)
Lemma expandStars_idempotent_witness :
  expandStars asciiToLower noAliases sampleSchema
    (OtherNode "Limit" [Literal (VInt 1) Int64]
       [Project [GetField 0 Int64 "t" "a" false;
                 GetField 1 LongText "t" "b" true; UnresolvedColumn "x"]
          (ResolvedTable "t" schema_t_ab)]) tt
  = Ok (OtherNode "Limit" [Literal (VInt 1) Int64]
          [Project [GetField 0 Int64 "t" "a" false;
                    GetField 1 LongText "t" "b" true; UnresolvedColumn "x"]
             (ResolvedTable "t" schema_t_ab)]).
Proof.
  exact (expandStars_idempotent asciiToLower noAliases sampleSchema
           (OtherNode "Limit" [Literal (VInt 1) Int64]
              [Project [Star ""; UnresolvedColumn "x"]
                 (ResolvedTable "t" schema_t_ab)])
           (OtherNode "Limit" [Literal (VInt 1) Int64]
              [Project [GetField 0 Int64 "t" "a" false;
                        GetField 1 LongText "t" "b" true; UnresolvedColumn "x"]
                 (ResolvedTable "t" schema_t_ab)])
           tt tt eq_refl eq_refl).
Defined.

End expandStars_more.

(** ** More on the variable expressions *)

Module expression_more.

Import contract gostrings.

Section Variables_.

Variable ToLower : string -> string.
Variable CharacterSetName : CollationID -> string.
Variable CollationName : CollationID -> string.
Variable SystemVariables : SystemVariableRegistry.

(** X10: an evaluation reads at most one store, under the name of the
    expression exactly as written (the comparison with the two special
    names is the only place where letter case is ignored).  A global
    system variable reads exactly the global registry; a session-scoped
    one reads nothing when its lower-cased name is one of the two special
    names and exactly the session store otherwise; a system variable of
    any other scope reads nothing; a user variable reads exactly the user
    variable store. *)
Theorem Eval_reads_at_most_one_store (ctx : Context) :
  (forall v,
     let reads :=
       snd (SystemVar_Eval ToLower CharacterSetName CollationName
              SystemVariables v ctx) in
     (sv_Scope v = SystemVariableScope_Global ->
      reads = [ReadGlobal (sv_Name v)])
     /\ (sv_Scope v = SystemVariableScope_Session ->
         (ToLower (sv_Name v) = "character_set_database"
          \/ ToLower (sv_Name v) = "collation_database" ->
          reads = [])
         /\ (ToLower (sv_Name v) <> "character_set_database" ->
             ToLower (sv_Name v) <> "collation_database" ->
             reads = [ReadSessionVariable (sv_Name v)]))
     /\ (forall tag,
           sv_Scope v = SystemVariableScope_Other tag -> reads = [])
     /\ length reads <= 1)
  /\ (forall v, snd (UserVar_Eval v ctx) = [ReadUserVariable (uv_Name v)]).
Proof.
  split; [| reflexivity].
  intros v. unfold SystemVar_Eval.
  destruct (sv_Scope v) eqn:Hs.
  - cbn zeta. split; [reflexivity |]. split; [discriminate |].
    split; [discriminate | simpl; lia].
  - destruct (String.eqb_spec (ToLower (sv_Name v)) "character_set_database")
      as [E1 | E1];
      [| destruct (String.eqb_spec (ToLower (sv_Name v)) "collation_database")
           as [E2 | E2]];
      cbn zeta; (split; [discriminate |]);
      (split; [intros _; split | split; [discriminate | simpl; lia]]).
    + reflexivity.
    + intros H. now destruct H.
    + reflexivity.
    + intros _ H. now destruct H.
    + intros [H | H]; contradiction.
    + reflexivity.
  - cbn zeta. split; [discriminate |]. split; [discriminate |].
    split; [reflexivity | simpl; lia].
Qed.

(** X11: the evaluation of a global system variable succeeds exactly when
    the registry knows the name, and then returns the registered value;
    the type of the expression is then the registered type.  Neither
    depends on the context, on the collation or on the scope as written. *)
Theorem SystemVar_Eval_global (v : SystemVar) (ctx : Context) :
  sv_Scope v = SystemVariableScope_Global ->
  (forall val,
     fst (SystemVar_Eval ToLower CharacterSetName CollationName SystemVariables
         v ctx)
     = Ok val <->
     exists sysVar, GetGlobal SystemVariables (sv_Name v) = Some (sysVar, val))
  /\ (forall sysVar val,
        GetGlobal SystemVariables (sv_Name v) = Some (sysVar, val) ->
        SystemVar_Type SystemVariables v = sysvar_Type sysVar)
  /\ (forall v' ctx',
        sv_Scope v' = SystemVariableScope_Global ->
        sv_Name v' = sv_Name v ->
        SystemVar_Eval ToLower CharacterSetName CollationName SystemVariables v'
            ctx'
        = SystemVar_Eval ToLower CharacterSetName CollationName SystemVariables
            v ctx).
Proof.
  intros Hs. unfold SystemVar_Eval, SystemVar_Type. rewrite Hs.
  split; [| split].
  - intros val. simpl.
    destruct (GetGlobal SystemVariables (sv_Name v)) as [[d x]|]; split.
    + intros H. injection H as <-. eauto.
    + intros [d' H]. now injection H as _ <-.
    + discriminate.
    + intros [d' H]. discriminate.
  - intros d val H. now rewrite H.
  - intros v' ctx' Hs' Hn. now rewrite Hs', Hn.
Qed.

End Variables_.

(** X12: a system or user variable expression has no children and accepts
    only the empty list of children, returning itself; any other list is
    refused with the "invalid children number" error, which carries the
    expression, the number of children given and the number expected, 0. *)
Theorem variable_WithChildren (children : list Expression) :
  (forall v,
     SystemVar_WithChildren v (SystemVar_Children v) = Rebuilt v
     /\ (SystemVar_WithChildren v children = Rebuilt v <-> children = [])
     /\ (children <> [] ->
         SystemVar_WithChildren v children
         = ErrInvalidChildrenNumber v (length children) 0))
  /\ (forall v,
        UserVar_WithChildren v (UserVar_Children v) = Rebuilt v
        /\ (UserVar_WithChildren v children = Rebuilt v <-> children = [])
        /\ (children <> [] ->
            UserVar_WithChildren v children
            = ErrInvalidChildrenNumber v (length children) 0)).
Proof.
  split; intros v; (split; [reflexivity |]);
    unfold SystemVar_WithChildren, UserVar_WithChildren;
    destruct children as [|e rest]; simpl;
    (split; [split; [try reflexivity; discriminate | try reflexivity;
                     discriminate] |]);
    intros H; try reflexivity; now destruct H.
Qed.

Section Coercibility.

Variable IsText : SqlType -> bool.
Variable Type_CollationCoercibility : SqlType -> CollationID * nat.
Variable SystemVariables : SystemVariableRegistry.

(** X16: the collation a variable expression reports is always the one of
    its type; the coercibility is 3 for a system variable of a text type,
    the type's own for any other system variable, and 2 for every user
    variable.  A system variable the registry does not know is treated as
    of the [Null] type. *)
Theorem CollationCoercibility_of_variables :
  (forall v,
     fst (SystemVar_CollationCoercibility IsText Type_CollationCoercibility
            SystemVariables v)
     = fst (Type_CollationCoercibility (SystemVar_Type SystemVariables v))
     /\ snd (SystemVar_CollationCoercibility IsText
               Type_CollationCoercibility SystemVariables v)
        = (if IsText (SystemVar_Type SystemVariables v) then 3
           else snd (Type_CollationCoercibility
                       (SystemVar_Type SystemVariables v))))
  /\ (forall v,
        GetGlobal SystemVariables (sv_Name v) = None ->
        SystemVar_CollationCoercibility IsText Type_CollationCoercibility
          SystemVariables v
        = (fst (Type_CollationCoercibility Null),
           if IsText Null then 3 else snd (Type_CollationCoercibility Null)))
  /\ (forall v,
        UserVar_CollationCoercibility Type_CollationCoercibility v
        = (fst (Type_CollationCoercibility (UserVar_Type v)), 2)).
Proof.
  split; [| split; [| reflexivity]].
  - intros v. unfold SystemVar_CollationCoercibility.
    now destruct (IsText (SystemVar_Type SystemVariables v)).
  - intros v H. unfold SystemVar_CollationCoercibility, SystemVar_Type.
    rewrite H. destruct (IsText Null); [reflexivity |].
    now destruct (Type_CollationCoercibility Null).
Qed.

End Coercibility.

Lemma SystemVar_Eval_global_witness :
  fst (SystemVar_Eval asciiToLower sampleCharacterSetName sampleCollationName
         sampleRegistry
         (NewSystemVar "AutoCommit" SystemVariableScope_Global "global")
         emptyContext)
  = Ok (VInt 1).
Proof.
  apply (proj1 (SystemVar_Eval_global asciiToLower sampleCharacterSetName
                  sampleCollationName sampleRegistry
                  (NewSystemVar "AutoCommit" SystemVariableScope_Global
                     "global")
                  emptyContext eq_refl)).
  exists (mkSystemVariable "autocommit" Int64). reflexivity.
Defined.

End expression_more.

(** ** More on the replication commands *)

Module replication_more.

Import binlogreplication replication contract replication_contract gostrings.

Lemma append_assoc (a b c : string) : (a +:+ b) +:+ c = a +:+ (b +:+ c).
Proof.
  induction a as [|x a IH]; [reflexivity |].
  change (String x ((a +:+ b) +:+ c) = String x (a +:+ (b +:+ c))).
  now rewrite IH.
Qed.

Lemma append_empty_r (a : string) : a +:+ "" = a.
Proof.
  induction a as [|x a IH]; [reflexivity |].
  change (String x (a +:+ "") = String x a). now rewrite IH.
Qed.

Section Commands.

Context {St : Type}.
Variable formatValue : Value -> string.

Lemma concat_separated (options : list ReplicationOption) :
  match options with
  | [] => ""
  | option :: rest =>
      optionText formatValue option +:+ separated formatValue rest
  end
  = String.concat ", " (List.map (optionText formatValue) options).
Proof.
  destruct options as [|o rest]; [reflexivity |].
  revert o. induction rest as [|o' rest IH]; intros o.
  - apply append_empty_r.
  - specialize (IH o').
    change (optionText formatValue o
            +:+ (", " +:+ optionText formatValue o'
                 +:+ separated formatValue rest)
            = optionText formatValue o
              +:+ ", "
              +:+ String.concat ", "
                    (List.map (optionText formatValue) (o' :: rest))).
    now rewrite <- IH.
Qed.

Lemma writeSourceOptions_later (options : list ReplicationOption) :
  forall (i : nat) (sb : string),
    0 < i ->
    writeSourceOptions formatValue i options sb
    = sb +:+ separated formatValue options.
Proof.
  induction options as [|o rest IH]; intros i sb Hi.
  - cbn [writeSourceOptions separated]. now rewrite append_empty_r.
  - destruct i as [|i]; [lia |].
    cbn [writeSourceOptions separated Nat.ltb Nat.leb].
    rewrite IH by lia. unfold optionText. now rewrite !append_assoc.
Qed.

Lemma writeFilterOptions_later (options : list ReplicationOption) :
  forall (i : nat) (sb : string),
    0 < i ->
    writeFilterOptions formatValue i options sb
    = sb +:+ separated formatValue options.
Proof.
  induction options as [|o rest IH]; intros i sb Hi.
  - cbn [writeFilterOptions separated]. now rewrite append_empty_r.
  - destruct i as [|i]; [lia |].
    cbn [writeFilterOptions separated Nat.ltb Nat.leb].
    rewrite IH by lia. unfold optionText. now rewrite !append_assoc.
Qed.

Lemma writeSourceOptions_spec (options : list ReplicationOption)
    (sb : string) :
  writeSourceOptions formatValue 0 options sb
  = sb +:+ String.concat ", " (List.map (optionText formatValue) options).
Proof.
  rewrite <- concat_separated. destruct options as [|o rest].
  - cbn [writeSourceOptions]. now rewrite append_empty_r.
  - cbn [writeSourceOptions Nat.ltb Nat.leb].
    rewrite writeSourceOptions_later by lia. unfold optionText.
    now rewrite !append_assoc.
Qed.

Lemma writeFilterOptions_spec (options : list ReplicationOption)
    (sb : string) :
  writeFilterOptions formatValue 0 options sb
  = sb +:+ String.concat ", " (List.map (optionText formatValue) options).
Proof.
  rewrite <- concat_separated. destruct options as [|o rest].
  - cbn [writeFilterOptions]. now rewrite append_empty_r.
  - cbn [writeFilterOptions Nat.ltb Nat.leb].
    rewrite writeFilterOptions_later by lia. unfold optionText.
    now rewrite !append_assoc.
Qed.

(** X13: the text of CHANGE REPLICATION SOURCE TO and of CHANGE
    REPLICATION FILTER is the statement keyword followed by the options,
    each printed as [name = value], separated by a comma and a space, with
    no separator before the first or after the last; the two nodes print
    their options alike.  Binding a controller does not change the text
    of any of the five nodes. *)
Theorem String_lists_options (c : option (BinlogReplicaController St))
    (options : list ReplicationOption) :
  String_ formatValue (ChangeReplicationSource c options)
  = "CHANGE REPLICATION SOURCE TO "
    +:+ String.concat ", " (List.map (optionText formatValue) options)
  /\ String_ formatValue (ChangeReplicationFilter c options)
     = "CHANGE REPLICATION FILTER "
       +:+ String.concat ", " (List.map (optionText formatValue) options)
  /\ (forall (n : Command St) c',
        String_ formatValue (WithBinlogReplicaController n c')
        = String_ formatValue n).
Proof.
  split; [apply writeSourceOptions_spec |].
  split; [apply writeFilterOptions_spec |].
  intros n c'. now destruct n.
Qed.

(** X14: binding a controller replaces the controller and nothing else:
    a second binding overrides the first, binding the controller a node
    already has gives the node back, and the node reads back the
    controller that was bound. *)
Theorem WithBinlogReplicaController_laws (n : Command St)
    (c1 c2 : option (BinlogReplicaController St)) :
  WithBinlogReplicaController (WithBinlogReplicaController n c1) c2
  = WithBinlogReplicaController n c2
  /\ WithBinlogReplicaController n (replicaController n) = n
  /\ replicaController (WithBinlogReplicaController n c1) = c1
  /\ (WithBinlogReplicaController n c1 = WithBinlogReplicaController n c2 ->
      c1 = c2).
Proof.
  destruct n; simpl;
    (split; [reflexivity | split; [reflexivity | split; [reflexivity |]]]);
    intros H; now injection H.
Qed.

(** X15: a replication command has no children and accepts only the empty
    list of children; the node returned is the node itself, with the
    controller it was bound to, so that it executes as before.  Any other
    list is refused with the "invalid children number" error carrying the
    number of children given and the number expected, 0. *)
Theorem Command_WithChildren (n : Command St) (children : list plan.Node) :
  WithChildren n (Children n) = Rebuilt n
  /\ (WithChildren n children = Rebuilt n <-> children = [])
  /\ (children <> [] ->
      WithChildren n children
      = ErrInvalidChildrenNumber n (length children) 0)
  /\ (forall n' ctx s,
        WithChildren n children = Rebuilt n' ->
        replicaController n' = replicaController n
        /\ RowIter n' ctx s = RowIter n ctx s).
Proof.
  unfold WithChildren, Children.
  split; [reflexivity |]. destruct children as [|m rest]; simpl.
  - split; [split; reflexivity |]. split.
    + intros Hne. now destruct Hne.
    + intros n' ctx s Heq. injection Heq as <-. split; reflexivity.
  - split; [split; discriminate |]. split; [reflexivity | discriminate].
Qed.

End Commands.

(** The text of a statement with two options and of RESET REPLICA ALL. *)
Example String_two_options :
  String_ (St := unit) sampleFormat
    (NewChangeReplicationSource
       [mkReplicationOption "SOURCE_HOST" (VString "localhost");
        mkReplicationOption "SOURCE_PORT" (VInt 3306)])
  = "CHANGE REPLICATION SOURCE TO SOURCE_HOST = localhost, SOURCE_PORT = <int>".
Proof. reflexivity. Qed.

Example String_reset_all :
  String_ (St := unit) sampleFormat (NewResetReplica true)
  = "RESET REPLICA ALL"
  /\ String_ (St := unit) sampleFormat (NewResetReplica false)
     = "RESET REPLICA".
Proof. split; reflexivity. Qed.

End replication_more.
